(** * threejs-viewcube: region table and orientation synchronizer

    A shallow embedding of [faces.js] (the [FACES] constants and
    [getFaceConfigs] with its helpers), of [ViewCubeMesh.setQuaternion]
    and of the option handling of the [ViewCube] constructor.

    Numbers.  A JavaScript number is modelled by a real number: products
    such as [d * 0.707] are exact, and there is neither NaN nor an
    infinity.  A parameter that may be [undefined] is an [option].
    Module [Binary64] repeats the product [d * 0.707] and one difference
    on IEEE doubles, to find the doubles at which a degenerate distance of
    the reals shows in the code. *)

From Stdlib Require Import Floats.
From Stdlib Require Import Reals Lra String.
From stdpp Require Import gmap strings.

Open Scope R_scope.

(** ** Plain [{x, y, z}] objects and region configurations *)

Record Vec3 : Type := mkVec3 { vx : R; vy : R; vz : R }.

(** The object literals of [faces.js] list [up], [lookAt], [position]. *)
Record FaceConfig : Type := mkFaceConfig {
  up : Vec3;
  lookAt : Vec3;
  position : Vec3
}.

(** The table is a JavaScript object keyed by the numeric region ids. *)
Abbreviation FaceConfigs := (gmap nat FaceConfig).

(** ** [FACES] *)

Module FACES.
Definition TOP : nat := 1.
Definition FRONT : nat := 2.
Definition RIGHT : nat := 3.
Definition BACK : nat := 4.
Definition LEFT : nat := 5.
Definition BOTTOM : nat := 6.

Definition TOP_FRONT_EDGE : nat := 7.
Definition TOP_RIGHT_EDGE : nat := 8.
Definition TOP_BACK_EDGE : nat := 9.
Definition TOP_LEFT_EDGE : nat := 10.

Definition FRONT_RIGHT_EDGE : nat := 11.
Definition BACK_RIGHT_EDGE : nat := 12.
Definition BACK_LEFT_EDGE : nat := 13.
Definition FRONT_LEFT_EDGE : nat := 14.

Definition BOTTOM_FRONT_EDGE : nat := 15.
Definition BOTTOM_RIGHT_EDGE : nat := 16.
Definition BOTTOM_BACK_EDGE : nat := 17.
Definition BOTTOM_LEFT_EDGE : nat := 18.

Definition TOP_FRONT_RIGHT_CORNER : nat := 19.
Definition TOP_BACK_RIGHT_CORNER : nat := 20.
Definition TOP_BACK_LEFT_CORNER : nat := 21.
Definition TOP_FRONT_LEFT_CORNER : nat := 22.

Definition BOTTOM_FRONT_RIGHT_CORNER : nat := 23.
Definition BOTTOM_BACK_RIGHT_CORNER : nat := 24.
Definition BOTTOM_BACK_LEFT_CORNER : nat := 25.
Definition BOTTOM_FRONT_LEFT_CORNER : nat := 26.
End FACES.

(** ** Object literals

    An object literal defines its properties from left to right, a later
    definition of a key replacing an earlier one; a spread [...o] defines
    the properties of [o] at that place. *)

Definition objectLiteral (props : list (nat * FaceConfig)) : FaceConfigs :=
  foldl (fun o kv => <[kv.1 := kv.2]> o) ∅ props.

Definition spread (o src : FaceConfigs) : FaceConfigs := src ∪ o.

Definition cfg (ux uy uz lx ly lz px py pz : R) : FaceConfig :=
  {| up := mkVec3 ux uy uz;
     lookAt := mkVec3 lx ly lz;
     position := mkVec3 px py pz |}.

(** ** [getEdgeConfigs] *)

Definition getEdgeConfigs (system : string) (d : R) : FaceConfigs :=
  let e := d * 0.707 in
  if decide (system = "Z-up"%string) then
    objectLiteral
      [ (FACES.TOP_FRONT_EDGE,    cfg 0 0 1  0 1 0     0 (-e) e);
        (FACES.TOP_RIGHT_EDGE,    cfg 0 0 1  1 0 0     e 0 e);
        (FACES.TOP_BACK_EDGE,     cfg 0 0 1  0 (-1) 0  0 e e);
        (FACES.TOP_LEFT_EDGE,     cfg 0 0 1  (-1) 0 0  (-e) 0 e);
        (FACES.FRONT_RIGHT_EDGE,  cfg 0 0 1  0 0 0     e (-e) 0);
        (FACES.BACK_RIGHT_EDGE,   cfg 0 0 1  0 0 0     e e 0);
        (FACES.BACK_LEFT_EDGE,    cfg 0 0 1  0 0 0     (-e) e 0);
        (FACES.FRONT_LEFT_EDGE,   cfg 0 0 1  0 0 0     (-e) (-e) 0);
        (FACES.BOTTOM_FRONT_EDGE, cfg 0 0 1  0 1 0     0 (-e) (-e));
        (FACES.BOTTOM_RIGHT_EDGE, cfg 0 0 1  1 0 0     e 0 (-e));
        (FACES.BOTTOM_BACK_EDGE,  cfg 0 0 1  0 (-1) 0  0 e (-e));
        (FACES.BOTTOM_LEFT_EDGE,  cfg 0 0 1  (-1) 0 0  (-e) 0 (-e)) ]
  else
    objectLiteral
      [ (FACES.TOP_FRONT_EDGE,    cfg 0 1 0  0 0 0  0 e e);
        (FACES.TOP_RIGHT_EDGE,    cfg 0 1 0  0 0 0  e e 0);
        (FACES.TOP_BACK_EDGE,     cfg 0 1 0  0 0 0  0 e (-e));
        (FACES.TOP_LEFT_EDGE,     cfg 0 1 0  0 0 0  (-e) e 0);
        (FACES.FRONT_RIGHT_EDGE,  cfg 0 1 0  0 0 0  e 0 e);
        (FACES.BACK_RIGHT_EDGE,   cfg 0 1 0  0 0 0  e 0 (-e));
        (FACES.BACK_LEFT_EDGE,    cfg 0 1 0  0 0 0  (-e) 0 (-e));
        (FACES.FRONT_LEFT_EDGE,   cfg 0 1 0  0 0 0  (-e) 0 e);
        (FACES.BOTTOM_FRONT_EDGE, cfg 0 1 0  0 0 0  0 (-e) e);
        (FACES.BOTTOM_RIGHT_EDGE, cfg 0 1 0  0 0 0  e (-e) 0);
        (FACES.BOTTOM_BACK_EDGE,  cfg 0 1 0  0 0 0  0 (-e) (-e));
        (FACES.BOTTOM_LEFT_EDGE,  cfg 0 1 0  0 0 0  (-e) (-e) 0) ].

(** ** [getCornerConfigs] *)

Definition getCornerConfigs (system : string) (d : R) : FaceConfigs :=
  let c := d * 0.577 in
  let up := if decide (system = "Z-up"%string) then mkVec3 0 0 1 else mkVec3 0 1 0 in
  let corner (px py pz : R) : FaceConfig :=
    {| up := up; lookAt := mkVec3 0 0 0; position := mkVec3 px py pz |} in
  if decide (system = "Z-up"%string) then
    objectLiteral
      [ (FACES.TOP_FRONT_RIGHT_CORNER,    corner c (-c) c);
        (FACES.TOP_BACK_RIGHT_CORNER,     corner c c c);
        (FACES.TOP_BACK_LEFT_CORNER,      corner (-c) c c);
        (FACES.TOP_FRONT_LEFT_CORNER,     corner (-c) (-c) c);
        (FACES.BOTTOM_FRONT_RIGHT_CORNER, corner c (-c) (-c));
        (FACES.BOTTOM_BACK_RIGHT_CORNER,  corner c c (-c));
        (FACES.BOTTOM_BACK_LEFT_CORNER,   corner (-c) c (-c));
        (FACES.BOTTOM_FRONT_LEFT_CORNER,  corner (-c) (-c) (-c)) ]
  else
    objectLiteral
      [ (FACES.TOP_FRONT_RIGHT_CORNER,    corner c c c);
        (FACES.TOP_BACK_RIGHT_CORNER,     corner c c (-c));
        (FACES.TOP_BACK_LEFT_CORNER,      corner (-c) c (-c));
        (FACES.TOP_FRONT_LEFT_CORNER,     corner (-c) c c);
        (FACES.BOTTOM_FRONT_RIGHT_CORNER, corner c (-c) c);
        (FACES.BOTTOM_BACK_RIGHT_CORNER,  corner c (-c) (-c));
        (FACES.BOTTOM_BACK_LEFT_CORNER,   corner (-c) (-c) (-c));
        (FACES.BOTTOM_FRONT_LEFT_CORNER,  corner (-c) (-c) c) ].

(** ** [getZUpFaceConfigs], [getYUpFaceConfigs], [getFaceConfigs] *)

Definition getZUpFaceConfigs (d : R) : FaceConfigs :=
  spread
    (spread
       (objectLiteral
          [ (FACES.TOP,    cfg 0 1 0     0 0 (-1)  0 0 d);
            (FACES.FRONT,  cfg 0 0 1     0 1 0     0 (-d) 0);
            (FACES.RIGHT,  cfg 0 0 1     1 0 0     d 0 0);
            (FACES.BACK,   cfg 0 0 1     0 (-1) 0  0 d 0);
            (FACES.LEFT,   cfg 0 0 1     (-1) 0 0  (-d) 0 0);
            (FACES.BOTTOM, cfg 0 (-1) 0  0 0 1     0 0 (-d)) ])
       (getEdgeConfigs "Z-up" d))
    (getCornerConfigs "Z-up" d).

Definition getYUpFaceConfigs (d : R) : FaceConfigs :=
  spread
    (spread
       (objectLiteral
          [ (FACES.TOP,    cfg 0 0 (-1)  0 (-1) 0  0 d 0);
            (FACES.FRONT,  cfg 0 1 0     0 0 (-1)  0 0 d);
            (FACES.RIGHT,  cfg 0 1 0     (-1) 0 0  d 0 0);
            (FACES.BACK,   cfg 0 1 0     0 0 1     0 0 (-d));
            (FACES.LEFT,   cfg 0 1 0     1 0 0     (-d) 0 0);
            (FACES.BOTTOM, cfg 0 0 1     0 1 0     0 (-d) 0) ])
       (getEdgeConfigs "Y-up" d))
    (getCornerConfigs "Y-up" d).

(** [function getFaceConfigs(coordinateSystem = 'Z-up', distance = 100)]:
    a default applies exactly when the argument is [undefined]. *)
Definition getFaceConfigs (coordinateSystem : option string) (distance : option R)
  : FaceConfigs :=
  let coordinateSystem := default "Z-up"%string coordinateSystem in
  let distance := default 100 distance in
  if decide (coordinateSystem = "Z-up"%string) then getZUpFaceConfigs distance
  else getYUpFaceConfigs distance.

(** ** Completions

    A call either returns a value or throws.  The only [throw] statement
    of the sources is the one of [ViewCube._init]. *)

Inductive Completion (A : Type) : Type :=
  | Normal (value : A)
  | Throw (message : string).
Arguments Normal {A} value.
Arguments Throw {A} message.

Definition throws {A : Type} (c : Completion A) : Prop :=
  match c with
  | Normal _ => False
  | Throw _ => True
  end.

(** A call of [getFaceConfigs]: both paths of its body end in [return]. *)
Definition call_getFaceConfigs (coordinateSystem : option string) (distance : option R)
  : Completion FaceConfigs :=
  Normal (getFaceConfigs coordinateSystem distance).

(** ** three.js quaternions *)

Module THREE.

(** Modelled from the spec: [THREE.Quaternion] belongs to three.js, an
    external library that this repository imports.  Section 6 of the
    specification asks for a unit quaternion with invert, multiply and
    set-from-axis-angle; they are given here with the arithmetic of
    three.js, components [x y z w]. *)
Record Quaternion : Type := mkQuaternion { _x : R; _y : R; _z : R; _w : R }.

(** Modelled from the spec: [new THREE.Quaternion()], the identity. *)
Definition identity : Quaternion := mkQuaternion 0 0 0 1.

(** Modelled from the spec: [q.setFromAxisAngle(axis, angle)], for a
    normalized axis. *)
Definition setFromAxisAngle (axis : Vec3) (angle : R) : Quaternion :=
  let halfAngle := angle / 2 in
  let s := sin halfAngle in
  mkQuaternion (vx axis * s) (vy axis * s) (vz axis * s) (cos halfAngle).

(** Modelled from the spec: [q.conjugate()]. *)
Definition conjugate (q : Quaternion) : Quaternion :=
  mkQuaternion (_x q * -1) (_y q * -1) (_z q * -1) (_w q).

(** Modelled from the spec: [q.invert()], which takes the quaternion to
    have unit length and conjugates it. *)
Definition invert (q : Quaternion) : Quaternion := conjugate q.

(** Modelled from the spec: [r.multiplyQuaternions(a, b)], the product
    [a b]. *)
Definition multiplyQuaternions (a b : Quaternion) : Quaternion :=
  let qax := _x a in let qay := _y a in let qaz := _z a in let qaw := _w a in
  let qbx := _x b in let qby := _y b in let qbz := _z b in let qbw := _w b in
  mkQuaternion
    (qax * qbw + qaw * qbx + qay * qbz - qaz * qby)
    (qay * qbw + qaw * qby + qaz * qbx - qax * qbz)
    (qaz * qbw + qaw * qbz + qax * qby - qay * qbx)
    (qaw * qbw - qax * qbx - qay * qby - qaz * qbz).

(** Modelled from the spec: [q.lengthSq()]; a unit quaternion has 1. *)
Definition lengthSq (q : Quaternion) : R :=
  _x q * _x q + _y q * _y q + _z q * _z q + _w q * _w q.

(** Modelled from the spec: the quaternion of a fresh [Object3D] after
    [rotation.x = a], that is of the Euler angles [(a, 0, 0)]. *)
Definition setFromEulerX (a : R) : Quaternion :=
  mkQuaternion (sin (a / 2)) 0 0 (cos (a / 2)).

End THREE.

(** ** [ViewCubeMesh]

    Of the mesh, the state that [setQuaternion] reads and writes: the
    resolved [coordinateSystem] option and the [quaternion] that
    [Object3D] keeps.  [a || b] on a string takes [b] when [a] is
    [undefined] or empty. *)

Definition or_string (a : option string) (b : string) : string :=
  match a with
  | Some s => if decide (s = EmptyString) then b else s
  | None => b
  end.

(** [a || b] on a number takes [b] when [a] is [undefined] or zero. *)
Definition or_number (a : option R) (b : R) : R :=
  match a with
  | Some r => if Req_dec_T r 0 then b else r
  | None => b
  end.

Module ViewCubeMesh.

Record t : Type := mk {
  coordinateSystem : string;
  quaternion : THREE.Quaternion
}.

(** [constructor(options = {})] followed by [_build], as far as the two
    fields go. *)
Definition new (options_coordinateSystem : option string) : t :=
  let coordinateSystem := or_string options_coordinateSystem "Z-up" in
  {| coordinateSystem := coordinateSystem;
     quaternion :=
       if decide (coordinateSystem = "Z-up"%string)
       then THREE.setFromEulerX (- PI / 2)
       else THREE.identity |}.

(** [setRotationFromQuaternion(q)]: [this.quaternion.copy(q)]. *)
Definition setRotationFromQuaternion (this : t) (q : THREE.Quaternion) : t :=
  {| coordinateSystem := coordinateSystem this; quaternion := q |}.

Definition setQuaternion (this : t) (quaternion : THREE.Quaternion) : t :=
  let coordinateSystem := coordinateSystem this in
  if decide (coordinateSystem = "Z-up"%string) then
    let zUpToYUp := THREE.setFromAxisAngle (mkVec3 1 0 0) (PI / 2) in
    let invertedQuat := THREE.invert quaternion in
    let finalQuat := THREE.multiplyQuaternions invertedQuat zUpToYUp in
    setRotationFromQuaternion this finalQuat
  else
    let invertedQuat := THREE.invert quaternion in
    setRotationFromQuaternion this invertedQuat.

End ViewCubeMesh.

(** ** [ViewCube]: the options and state that reach the table and the mesh *)

Module ViewCube.

Record Options : Type := mkOptions {
  container : option nat;
  coordinateSystem : option string;
  cameraDistance : option R
}.

(** [constructor(options = {})] with no argument. *)
Definition noOptions : Options :=
  {| container := None; coordinateSystem := None; cameraDistance := None |}.

Record ResolvedOptions : Type := mkResolved {
  _container : option nat;
  _coordinateSystem : string;
  _cameraDistance : R
}.

Record t : Type := mk {
  _options : ResolvedOptions;
  _cube : ViewCubeMesh.t;
  _faceConfigs : FaceConfigs
}.

(** The [this._options = { ... }] literal of the constructor. *)
Definition resolve (options : Options) : ResolvedOptions :=
  {| _container := container options;
     _coordinateSystem := or_string (coordinateSystem options) "Z-up";
     _cameraDistance := or_number (cameraDistance options) 100 |}.

Definition _init (o : ResolvedOptions) : Completion t :=
  match _container o with
  | None => Throw "ViewCube: container element is required"
  | Some _ =>
      Normal
        {| _options := o;
           _cube := ViewCubeMesh.new (Some (_coordinateSystem o));
           _faceConfigs :=
             getFaceConfigs (Some (_coordinateSystem o)) (Some (_cameraDistance o)) |}
  end.

Definition constructor (options : option Options) : Completion t :=
  _init (resolve (default noOptions options)).

(** [update(camera)]: [None] stands for a camera that is falsy or has
    no [quaternion]; rendering does not touch the modelled state. *)
Definition update (this : t) (camera_quaternion : option THREE.Quaternion) : t :=
  match camera_quaternion with
  | Some q =>
      {| _options := _options this;
         _cube := ViewCubeMesh.setQuaternion (_cube this) q;
         _faceConfigs := _faceConfigs this |}
  | None => this
  end.

(** [getFaceConfig(faceId)]: [None] is [undefined]. *)
Definition getFaceConfig (this : t) (faceId : nat) : option FaceConfig :=
  _faceConfigs this !! faceId.

End ViewCube.

(** ** The edge offset on IEEE doubles *)

Module Binary64.

#[local] Set Warnings "-inexact-float".

(** [const e = d * 0.707] of [getEdgeConfigs], in binary64 arithmetic. *)
Definition e (d : float) : float := (d * 0.707)%float.

(** The x coordinate of lookAt - position for the Z-up TOP_RIGHT_EDGE,
    lookAt = (1, 0, 0) and position = (e, 0, e), in binary64 arithmetic. *)
Definition gazeX (d : float) : float := (1 - e d)%float.

End Binary64.

(** ** Vocabulary of the specification *)

(** The two conventions the specification recognises. *)
Definition conventions : list string := ["Y-up"%string; "Z-up"%string].

(** The 26 region identifiers, and their three kinds. *)
Definition regionIds : gset nat := list_to_set (seq 1 26).

Definition isFace (id : nat) : Prop := (1 <= id <= 6)%nat.
Definition isEdge (id : nat) : Prop := (7 <= id <= 18)%nat.
Definition isCorner (id : nat) : Prop := (19 <= id <= 26)%nat.

Definition topBottomEdges : list nat :=
  [ FACES.TOP_FRONT_EDGE; FACES.TOP_RIGHT_EDGE; FACES.TOP_BACK_EDGE; FACES.TOP_LEFT_EDGE;
    FACES.BOTTOM_FRONT_EDGE; FACES.BOTTOM_RIGHT_EDGE; FACES.BOTTOM_BACK_EDGE;
    FACES.BOTTOM_LEFT_EDGE ].

Definition sideEdges : list nat :=
  [ FACES.FRONT_RIGHT_EDGE; FACES.BACK_RIGHT_EDGE; FACES.BACK_LEFT_EDGE;
    FACES.FRONT_LEFT_EDGE ].

Definition origin : Vec3 := mkVec3 0 0 0.

Definition cardinalDirections : list Vec3 :=
  [ mkVec3 1 0 0; mkVec3 (-1) 0 0;
    mkVec3 0 1 0; mkVec3 0 (-1) 0;
    mkVec3 0 0 1; mkVec3 0 0 (-1) ].

Definition vsub (a b : Vec3) : Vec3 :=
  mkVec3 (vx a - vx b) (vy a - vy b) (vz a - vz b).

Definition vscale (k : R) (v : Vec3) : Vec3 :=
  mkVec3 (k * vx v) (k * vy v) (k * vz v).

Definition normSq (v : Vec3) : R := vx v * vx v + vy v * vy v + vz v * vz v.

Definition norm (v : Vec3) : R := sqrt (normSq v).

(** [u] and [v] are parallel: one of them is a scalar multiple of the
    other.  The zero vector is parallel to every vector. *)
Definition parallel (u v : Vec3) : Prop :=
  (exists k : R, u = vscale k v) \/ (exists k : R, v = vscale k u).

(** The direction of gaze of a configuration. *)
Definition gaze (c : FaceConfig) : Vec3 := vsub (lookAt c) (position c).

(** [a] equals [b] within the relative tolerance [tol]. *)
Definition relClose (tol a b : R) : Prop := Rabs (a - b) <= tol * Rabs b.

(** The norms the specification gives to the three kinds of region. *)
Definition specNorm (id : nat) (d : R) : R :=
  if (id <=? 6)%nat then d
  else if (id <=? 18)%nat then d * (sqrt 2 / 2)
  else d * (1 / sqrt 3).

(** The norms the positions of the code have, by kind of region: an edge
    position has two non-zero coordinates of magnitude [d * 0.707], a
    corner position three of magnitude [d * 0.577]. *)
Definition codeNorm (id : nat) (d : R) : R :=
  if (id <=? 6)%nat then d
  else if (id <=? 18)%nat then sqrt 2 * (d * 0.707)
  else sqrt 3 * (d * 0.577).

(** The correction rotation of the specification's synchronizer. *)
Definition correction (convention : string) : THREE.Quaternion :=
  if decide (convention = "Z-up"%string)
  then THREE.setFromAxisAngle (mkVec3 1 0 0) (PI / 2)
  else THREE.identity.

(** The rotation of a vector by a unit quaternion, [q v q*]. *)
Definition rotate (q : THREE.Quaternion) (v : Vec3) : Vec3 :=
  let p := THREE.mkQuaternion (vx v) (vy v) (vz v) 0 in
  let r := THREE.multiplyQuaternions (THREE.multiplyQuaternions q p) (THREE.conjugate q) in
  mkVec3 (THREE._x r) (THREE._y r) (THREE._z r).

(** ** [getFaceName] *)

(** [Object.keys(FACES)] with the values: the properties of [FACES] in the
    order of the literal. *)
Definition FACES_entries : list (string * nat) :=
  [ ("TOP", FACES.TOP); ("FRONT", FACES.FRONT); ("RIGHT", FACES.RIGHT);
    ("BACK", FACES.BACK); ("LEFT", FACES.LEFT); ("BOTTOM", FACES.BOTTOM);
    ("TOP_FRONT_EDGE", FACES.TOP_FRONT_EDGE); ("TOP_RIGHT_EDGE", FACES.TOP_RIGHT_EDGE);
    ("TOP_BACK_EDGE", FACES.TOP_BACK_EDGE); ("TOP_LEFT_EDGE", FACES.TOP_LEFT_EDGE);
    ("FRONT_RIGHT_EDGE", FACES.FRONT_RIGHT_EDGE);
    ("BACK_RIGHT_EDGE", FACES.BACK_RIGHT_EDGE);
    ("BACK_LEFT_EDGE", FACES.BACK_LEFT_EDGE);
    ("FRONT_LEFT_EDGE", FACES.FRONT_LEFT_EDGE);
    ("BOTTOM_FRONT_EDGE", FACES.BOTTOM_FRONT_EDGE);
    ("BOTTOM_RIGHT_EDGE", FACES.BOTTOM_RIGHT_EDGE);
    ("BOTTOM_BACK_EDGE", FACES.BOTTOM_BACK_EDGE);
    ("BOTTOM_LEFT_EDGE", FACES.BOTTOM_LEFT_EDGE);
    ("TOP_FRONT_RIGHT_CORNER", FACES.TOP_FRONT_RIGHT_CORNER);
    ("TOP_BACK_RIGHT_CORNER", FACES.TOP_BACK_RIGHT_CORNER);
    ("TOP_BACK_LEFT_CORNER", FACES.TOP_BACK_LEFT_CORNER);
    ("TOP_FRONT_LEFT_CORNER", FACES.TOP_FRONT_LEFT_CORNER);
    ("BOTTOM_FRONT_RIGHT_CORNER", FACES.BOTTOM_FRONT_RIGHT_CORNER);
    ("BOTTOM_BACK_RIGHT_CORNER", FACES.BOTTOM_BACK_RIGHT_CORNER);
    ("BOTTOM_BACK_LEFT_CORNER", FACES.BOTTOM_BACK_LEFT_CORNER);
    ("BOTTOM_FRONT_LEFT_CORNER", FACES.BOTTOM_FRONT_LEFT_CORNER) ]%string.

(** [Object.keys(FACES).find(key => FACES[key] === faceId) || 'UNKNOWN']:
    the first key with that value; no key is the empty string. *)
Definition getFaceName (faceId : nat) : string :=
  match List.find (fun kv => Nat.eqb kv.2 faceId) FACES_entries with
  | Some kv => kv.1
  | None => "UNKNOWN"
  end.

(** ** [utils.js] *)

Module Utils.

Definition DEG_TO_RAD : R := PI / 180.
Definition TWO_PI : R := 2 * PI.

Definition calculateAngleDelta (from to : R) : R :=
  let direct := to - from in
  let altA := direct - TWO_PI in
  let altB := direct + TWO_PI in
  if Rgt_dec (Rabs direct) (Rabs altA) then altA
  else if Rgt_dec (Rabs direct) (Rabs altB) then altB
  else direct.

(** [Math.pow(x, 3)] is the cube [x ^ 3]. *)
Definition easeInOutCubic (t : R) : R :=
  if Rlt_dec t 0.5
  then 4 * t * t * t
  else 1 - (-2 * t + 2) ^ 3 / 2.




Record Spherical : Type := mkSpherical { r : R; theta : R; phi : R }.

(** Modelled from the spec: [v.length()] of three.js's [Vector3]. *)
Definition length (v : Vec3) : R := sqrt (vx v * vx v + vy v * vy v + vz v * vz v).

(** [Math.atan2] is a parameter; [Math.max] and [Math.min] are [Rmax] and
    [Rmin], [Math.acos] is [acos]. *)
Definition cartesianToSpherical (atan2 : R -> R -> R) (cartesian : Vec3) : Spherical :=
  let r := length cartesian in
  let theta := atan2 (vy cartesian) (vx cartesian) in
  let phi := acos (Rmax (-1) (Rmin 1 (vz cartesian / r))) in
  {| r := r; theta := theta; phi := phi |}.

(** [new THREE.Vector3(x, y, z)] is the triple of its arguments. *)
Definition sphericalToCartesian (r theta phi : R) : Vec3 :=
  mkVec3 (r * sin phi * cos theta) (r * sin phi * sin theta) (r * cos phi).

End Utils.

(** ** Further vocabulary *)

Definition dot (u v : Vec3) : R := vx u * vx v + vy u * vy v + vz u * vz v.

(** A configuration with its position multiplied by [k]. *)
Definition scalePosition (k : R) (c : FaceConfig) : FaceConfig :=
  {| up := up c; lookAt := lookAt c; position := vscale k (position c) |}.

(** The world's vertical axis under a convention, as the code tests it. *)
Definition vertical (convention : string) : Vec3 :=
  if decide (convention = "Z-up"%string) then mkVec3 0 0 1 else mkVec3 0 1 0.

(** From its position, a configuration looks towards the origin. *)
Definition looksTowardsOrigin (c : FaceConfig) : Prop :=
  exists k : R, 0 < k /\ gaze c = vscale (- k) (position c).

(** ** The scene graph of [ViewCubeMesh]

    The objects that [_build] adds to the mesh: their names, material
    colours and textures, and their placement (size, position and the
    rotations applied, in order).  A texture is recorded by the arguments
    of [createTextTexture]. *)

Module Scene.

(** A property of one of the option objects [colors], [labels] and
    [font]: absent (also when the whole object is absent), present with
    the value [undefined], or present with a value. *)
Inductive Given (A : Type) : Type :=
  | Absent
  | Undefined
  | Value (a : A).
Arguments Absent {A}.
Arguments Undefined {A}.
Arguments Value {A} a.

(** [{ key: sub?.key ?? fallback, ...sub }.key]: the fallback is used
    for an absent property, and the spread that follows puts a present
    property back, also when it is [undefined] ([None]). *)
Definition resolveSpread {A : Type} (fallback : A) (g : Given A) : option A :=
  match g with
  | Absent => Some fallback
  | Undefined => None
  | Value a => Some a
  end.

(** Modelled from the spec: [color.setHex(hex)] of three.js, an external
    library: for [undefined] the channels come out 0, which is black. *)
Definition setHex (hex : option N) : N := default 0%N hex.

(** Modelled from the spec: the colour of a three.js material made with
    [{ color: c }]: a parameter that is missing or [undefined] leaves the
    default, white. *)
Definition materialColor (c : option N) : N := default 0xFFFFFF%N c.

(** The arguments of [createTextTexture] after its own defaults
    ([fontSize = 45], [font = 'Arial Narrow, sans-serif'], which also
    replace [undefined]); the text may be [undefined]. *)
Record Texture : Type := mkTexture {
  text : option string;
  fontSize : R;
  font : string;
  rotation : R
}.

(** A [THREE.Mesh] made by [_createFace]; the name [None] is the empty
    string. *)
Record Face : Type := mkFace {
  name : option nat;
  color : N;
  map : option Texture;
  size : R * R;
  position : Vec3;
  rotations : list (Vec3 * R)
}.

#[local] Set Warnings "-register-all".

Inductive Object3D : Type :=
  | Mesh (face : Face)
  | LineSegments (color : N) (boxSize : R)
  | Group (rotations : list (Vec3 * R)) (children : list Object3D).

Record Options : Type := mkOptions {
  o_size : option R;
  o_edgeSize : option R;
  o_showOutline : option bool;
  o_showEdges : option bool;
  o_showCorners : option bool;
  o_main : Given N;
  o_hover : Given N;
  o_outline : Given N;
  o_top : Given string;
  o_bottom : Given string;
  o_front : Given string;
  o_back : Given string;
  o_left : Given string;
  o_right : Given string;
  o_fontFamily : Given string;
  o_fontSize : Given R
}.

(** [new ViewCubeMesh()] or [new ViewCubeMesh({})]. *)
Definition noOptions : Options :=
  mkOptions None None None None None Absent Absent Absent
    Absent Absent Absent Absent Absent Absent Absent Absent.

(** The mesh after its constructor: the resolved colours ([None] is
    [undefined]) and the children, in the order of [add]. *)
Record t : Type := mk {
  _bgColor : option N;
  _hoverColor : option N;
  _outlineColor : option N;
  children : list Object3D
}.

(** [x !== false] *)
Definition notFalse (x : option bool) : bool :=
  match x with
  | Some false => false
  | _ => true
  end.

(** [_createFace(size, position, { axis, angle, name, matProps })] with
    [size] a pair; [matColor] is [matProps.color], [None] when [matProps]
    has no colour or an [undefined] one. *)
Definition _createFace (size : R * R) (position : Vec3) (axis : Vec3) (angle : R)
    (name : option nat) (matColor : option N) : Face :=
  {| name := name;
     color := materialColor matColor;
     map := None;
     size := size;
     position := position;
     rotations := [(axis, angle * Utils.DEG_TO_RAD)] |}.

Definition rotateZ (angle : R) (f : Face) : Face :=
  {| name := name f; color := color f; map := map f; size := size f;
     position := position f;
     rotations := rotations f ++ [(mkVec3 0 0 1, angle)] |}.

Definition Y_AXIS : Vec3 := mkVec3 0 1 0.
Definition X_AXIS : Vec3 := mkVec3 1 0 0.

Definition _createCubeFaces (faceSize offset : R) : list Face :=
  [ _createFace (faceSize, faceSize) (mkVec3 0 0 offset) Y_AXIS 0 None None;
    _createFace (faceSize, faceSize) (mkVec3 offset 0 0) Y_AXIS 90 None None;
    _createFace (faceSize, faceSize) (mkVec3 0 0 (- offset)) Y_AXIS 180 None None;
    _createFace (faceSize, faceSize) (mkVec3 (- offset) 0 0) Y_AXIS 270 None None;
    rotateZ PI (_createFace (faceSize, faceSize) (mkVec3 0 offset 0) X_AXIS (-90) None None);
    rotateZ PI (_createFace (faceSize, faceSize) (mkVec3 0 (- offset) 0) X_AXIS 90 None None) ].

Definition _getFaceLabels (top bottom front back left right : option string)
    (fontSize : R) (font : string) : list (nat * Texture) :=
  [ (FACES.FRONT, mkTexture front fontSize font 0);
    (FACES.RIGHT, mkTexture right fontSize font 0);
    (FACES.BACK, mkTexture back fontSize font 0);
    (FACES.LEFT, mkTexture left fontSize font 0);
    (FACES.TOP, mkTexture top fontSize font 180);
    (FACES.BOTTOM, mkTexture bottom fontSize font 180) ].

(** The loop of [_build] over [faceLabels.entries()]: the face of the
    same index gets the name, the background colour and the texture. *)
Definition labelFaces (bg : option N) (faces : list Face) (labels : list (nat * Texture))
  : list Face :=
  zip_with
    (fun f l =>
       {| name := Some l.1; color := setHex bg; map := Some l.2; size := size f;
          position := position f; rotations := rotations f |})
    faces labels.

Definition _createCornerFaces (faceSize offset : R) (name : nat) (bg : option N)
  : list Face :=
  let borderOffset := offset - faceSize / 2 in
  [ _createFace (faceSize, faceSize) (mkVec3 borderOffset borderOffset offset)
      Y_AXIS 0 (Some name) bg;
    _createFace (faceSize, faceSize) (mkVec3 offset borderOffset borderOffset)
      Y_AXIS 90 (Some name) bg;
    _createFace (faceSize, faceSize) (mkVec3 borderOffset offset borderOffset)
      X_AXIS (-90) (Some name) bg ].

Definition cornerFaces : list nat :=
  [ FACES.TOP_FRONT_RIGHT_CORNER; FACES.TOP_BACK_RIGHT_CORNER;
    FACES.TOP_BACK_LEFT_CORNER; FACES.TOP_FRONT_LEFT_CORNER;
    FACES.BOTTOM_BACK_RIGHT_CORNER; FACES.BOTTOM_FRONT_RIGHT_CORNER;
    FACES.BOTTOM_FRONT_LEFT_CORNER; FACES.BOTTOM_BACK_LEFT_CORNER ].

Definition _createCorners (borderSize faceOffset : R) (bg : option N) : list Object3D :=
  imap
    (fun i name =>
       Group
         ((Y_AXIS, INR (i mod 4) * 90 * Utils.DEG_TO_RAD)
            :: (if (4 <=? i)%nat then [(X_AXIS, 180 * Utils.DEG_TO_RAD)] else []))
         (Mesh <$> _createCornerFaces borderSize faceOffset name bg))
    cornerFaces.

Definition _createHorzEdgeFaces (w h offset : R) (name : nat) (bg : option N)
  : list Face :=
  let borderOffset := offset - h / 2 in
  [ _createFace (w, h) (mkVec3 0 borderOffset offset) Y_AXIS 0 (Some name) bg;
    _createFace (w, h) (mkVec3 0 offset borderOffset) X_AXIS (-90) (Some name) bg ].

Definition _createVertEdgeFaces (w h offset : R) (name : nat) (bg : option N)
  : list Face :=
  let borderOffset := offset - w / 2 in
  [ _createFace (w, h) (mkVec3 borderOffset 0 offset) Y_AXIS 0 (Some name) bg;
    _createFace (w, h) (mkVec3 offset 0 borderOffset) Y_AXIS 90 (Some name) bg ].

Definition topEdgeFaces : list nat :=
  [ FACES.TOP_FRONT_EDGE; FACES.TOP_RIGHT_EDGE; FACES.TOP_BACK_EDGE; FACES.TOP_LEFT_EDGE ].

Definition bottomEdgeFaces : list nat :=
  [ FACES.BOTTOM_BACK_EDGE; FACES.BOTTOM_RIGHT_EDGE; FACES.BOTTOM_FRONT_EDGE;
    FACES.BOTTOM_LEFT_EDGE ].

Definition sideEdgeFaces : list nat :=
  [ FACES.FRONT_RIGHT_EDGE; FACES.BACK_RIGHT_EDGE; FACES.BACK_LEFT_EDGE;
    FACES.FRONT_LEFT_EDGE ].

Definition _createEdges (borderSize faceSize faceOffset : R) (bg : option N)
  : list Object3D :=
  let horz (i : nat) (name : nat) : Object3D :=
    Group [(Y_AXIS, INR i * 90 * Utils.DEG_TO_RAD)]
      (Mesh <$> _createHorzEdgeFaces faceSize borderSize faceOffset name bg) in
  let vert (i : nat) (name : nat) : Object3D :=
    Group [(Y_AXIS, INR i * 90 * Utils.DEG_TO_RAD)]
      (Mesh <$> _createVertEdgeFaces borderSize faceSize faceOffset name bg) in
  [ Group [] (imap horz topEdgeFaces);
    Group [(X_AXIS, 180 * Utils.DEG_TO_RAD)] (imap horz bottomEdgeFaces);
    Group [] (imap vert sideEdgeFaces) ].

Definition _createCubeOutline (size : R) (outline : option N) : Object3D :=
  LineSegments (materialColor outline) size.

(** [new ViewCubeMesh(options)]: the constructor and [_build]. *)
Definition new (options : Options) : t :=
  let size := or_number (o_size options) 30 in
  let edgeSize := or_number (o_edgeSize options) 5 in
  let bg := resolveSpread 0xDDDDDD%N (o_main options) in
  let hover := resolveSpread 0x87CEEB%N (o_hover options) in
  let outline := resolveSpread 0x666666%N (o_outline options) in
  let faceSize := size - edgeSize * 2 in
  let faceOffset := size / 2 in
  let borderSize := edgeSize in
  let faceLabels :=
    _getFaceLabels
      (resolveSpread "TOP"%string (o_top options))
      (resolveSpread "BOTTOM"%string (o_bottom options))
      (resolveSpread "FRONT"%string (o_front options))
      (resolveSpread "BACK"%string (o_back options))
      (resolveSpread "LEFT"%string (o_left options))
      (resolveSpread "RIGHT"%string (o_right options))
      (default 45 (resolveSpread 45 (o_fontSize options)))
      (default "Arial Narrow, sans-serif"%string
         (resolveSpread "Arial Narrow, sans-serif"%string (o_fontFamily options))) in
  {| _bgColor := bg;
     _hoverColor := hover;
     _outlineColor := outline;
     children :=
       [Group [] (Mesh <$> labelFaces bg (_createCubeFaces faceSize faceOffset) faceLabels)]
       ++ (if notFalse (o_showCorners options)
           then _createCorners borderSize faceOffset bg else [])
       ++ (if notFalse (o_showEdges options)
           then _createEdges borderSize faceSize faceOffset bg else [])
       ++ (if notFalse (o_showOutline options)
           then [_createCubeOutline size outline] else []) |}.

(** A name is truthy unless it is the empty string or 0. *)
Definition truthy (name : option nat) : bool :=
  match name with
  | Some (S _) => true
  | _ => false
  end.

(** [traverse] with a callback that recolours the named objects: the
    callback of [setHover] and [clearHover] touches nothing else, and
    only a [Mesh] has a name. *)
Fixpoint recolour (f : Face -> N) (o : Object3D) : Object3D :=
  match o with
  | Mesh face =>
      if truthy (name face)
      then Mesh {| name := name face; color := f face; map := map face;
                   size := size face; position := position face;
                   rotations := rotations face |}
      else Mesh face
  | LineSegments c s => LineSegments c s
  | Group r cs => Group r (List.map (recolour f) cs)
  end.

Definition setHover (this : t) (faceId : nat) : t :=
  {| _bgColor := _bgColor this; _hoverColor := _hoverColor this;
     _outlineColor := _outlineColor this;
     children :=
       List.map
         (recolour (fun face =>
            setHex (if decide (name face = Some faceId)
                    then _hoverColor this else _bgColor this)))
         (children this) |}.

Definition clearHover (this : t) : t :=
  {| _bgColor := _bgColor this; _hoverColor := _hoverColor this;
     _outlineColor := _outlineColor this;
     children := List.map (recolour (fun _ => setHex (_bgColor this))) (children this) |}.

(** The faces that [traverse] visits, in its order. *)
Fixpoint faces (o : Object3D) : list Face :=
  match o with
  | Mesh face => [face]
  | LineSegments _ _ => []
  | Group _ cs => List.flat_map faces cs
  end.

Definition allFaces (this : t) : list Face := List.flat_map faces (children this).

End Scene.

(** ** The interaction layer of [ViewCube]

    Event names are the two of the declared interface,
    [on(event: 'faceClick' | 'drag', ...)].  A callback is known by its
    identity; [throwsOn] tells for which arguments a callback throws.  The
    result of [_raycast] is given to the handlers as the names of the
    intersected objects, nearest first. *)

Module Interaction.

Inductive EventName : Type := faceClick | drag.

#[global] Instance EventName_eq_dec : EqDecision EventName.
Proof. solve_decision. Defined.

Definition key (event : EventName) : string :=
  match event with
  | faceClick => "faceClick"
  | drag => "drag"
  end.

Abbreviation Callback := nat.

Inductive Args : Type :=
  | FaceClickArgs (faceId : nat) (config : FaceConfig)
  | DragArgs (deltaX deltaY : R).

Record Point : Type := mkPoint { x : R; y : R }.

Record t : Type := mk {
  _faceConfigs : FaceConfigs;
  _cube : Scene.t;
  _eventListeners : gmap string (list Callback);
  _isDragging : bool;
  _previousMousePosition : Point;
  cursor : string;
  documentListeners : bool
}.

(** The interaction state after the constructor: no listeners, not
    dragging, previous position (0, 0). *)
Definition init (faceConfigs : FaceConfigs) (cube : Scene.t) : t :=
  {| _faceConfigs := faceConfigs; _cube := cube; _eventListeners := ∅;
     _isDragging := false; _previousMousePosition := mkPoint 0 0;
     cursor := ""; documentListeners := false |}.

Definition setListeners (this : t) (l : gmap string (list Callback)) : t :=
  {| _faceConfigs := _faceConfigs this; _cube := _cube this; _eventListeners := l;
     _isDragging := _isDragging this;
     _previousMousePosition := _previousMousePosition this;
     cursor := cursor this; documentListeners := documentListeners this |}.

Definition on (this : t) (event : EventName) (callback : Callback) : t :=
  let listeners :=
    match _eventListeners this !! key event with
    | None => <[key event := []]> (_eventListeners this)
    | Some _ => _eventListeners this
    end in
  setListeners this
    (<[key event := default [] (listeners !! key event) ++ [callback]]> listeners).

Definition off (this : t) (event : EventName) (callback : Callback) : t :=
  match _eventListeners this !! key event with
  | Some cbs =>
      setListeners this
        (<[key event := List.filter (fun cb => negb (Nat.eqb cb callback)) cbs]>
           (_eventListeners this))
  | None => this
  end.

Section Emit.
Variable throwsOn : Callback -> Args -> option string.

(** [cbs.forEach(cb => cb(...args))]: the calls made, and how it ends. *)
Fixpoint forEach (cbs : list Callback) (args : Args)
  : list (Callback * Args) * Completion unit :=
  match cbs with
  | [] => ([], Normal tt)
  | cb :: rest =>
      match throwsOn cb args with
      | Some message => ([(cb, args)], Throw message)
      | None =>
          let '(calls, completion) := forEach rest args in
          ((cb, args) :: calls, completion)
      end
  end.

Definition _emit (this : t) (event : EventName) (args : Args)
  : list (Callback * Args) * Completion unit :=
  match _eventListeners this !! key event with
  | Some cbs => forEach cbs args
  | None => ([], Normal tt)
  end.

(** The first object with a truthy name, as the [for] loops look for. *)
Fixpoint firstNamed (intersects : list (option nat)) : option nat :=
  match intersects with
  | [] => None
  | name :: rest =>
      if Scene.truthy name then name else firstNamed rest
  end.

Definition setCursor (this : t) (c : string) : t :=
  {| _faceConfigs := _faceConfigs this; _cube := _cube this;
     _eventListeners := _eventListeners this; _isDragging := _isDragging this;
     _previousMousePosition := _previousMousePosition this;
     cursor := c; documentListeners := documentListeners this |}.

Definition setCube (this : t) (cube : Scene.t) : t :=
  {| _faceConfigs := _faceConfigs this; _cube := cube;
     _eventListeners := _eventListeners this; _isDragging := _isDragging this;
     _previousMousePosition := _previousMousePosition this;
     cursor := cursor this; documentListeners := documentListeners this |}.

Definition _onMouseMove (this : t) (intersects : list (option nat)) : t :=
  if _isDragging this then this
  else
    let this := setCube this (Scene.clearHover (_cube this)) in
    match firstNamed intersects with
    | Some name => setCursor (setCube this (Scene.setHover (_cube this) name)) "pointer"
    | None => setCursor this "default"
    end.

Definition _onClick (this : t) (intersects : list (option nat))
  : list (Callback * Args) * Completion unit :=
  if _isDragging this then ([], Normal tt)
  else
    match firstNamed intersects with
    | Some faceId =>
        match _faceConfigs this !! faceId with
        | Some config => _emit this faceClick (FaceClickArgs faceId config)
        | None => ([], Normal tt)
        end
    | None => ([], Normal tt)
    end.

Definition _onMouseDown (this : t) (client : Point) : t :=
  {| _faceConfigs := _faceConfigs this; _cube := _cube this;
     _eventListeners := _eventListeners this; _isDragging := true;
     _previousMousePosition := client;
     cursor := "grabbing"; documentListeners := true |}.

Definition _onDocumentMouseMove (this : t) (client : Point)
  : t * list (Callback * Args) * Completion unit :=
  if negb (_isDragging this) then (this, [], Normal tt)
  else
    let deltaX := x client - x (_previousMousePosition this) in
    let deltaY := y client - y (_previousMousePosition this) in
    match _emit this drag (DragArgs deltaX deltaY) with
    | (calls, Throw message) => (this, calls, Throw message)
    | (calls, Normal _) =>
        ({| _faceConfigs := _faceConfigs this; _cube := _cube this;
            _eventListeners := _eventListeners this; _isDragging := _isDragging this;
            _previousMousePosition := client;
            cursor := cursor this; documentListeners := documentListeners this |},
         calls, Normal tt)
    end.

Definition _onDocumentMouseUp (this : t) : t :=
  {| _faceConfigs := _faceConfigs this; _cube := _cube this;
     _eventListeners := _eventListeners this; _isDragging := false;
     _previousMousePosition := _previousMousePosition this;
     cursor := "default"; documentListeners := false |}.

(** A run of document mouse moves, as long as no listener throws. *)
Fixpoint moves (this : t) (clients : list Point) : t * list (Callback * Args) :=
  match clients with
  | [] => (this, [])
  | client :: rest =>
      match _onDocumentMouseMove this client with
      | (this', calls, Normal _) =>
          let '(final, later) := moves this' rest in (final, calls ++ later)
      | (this', calls, Throw _) => (this', calls)
      end
  end.

End Emit.

Record Rect : Type := mkRect { left : R; top : R; width : R; height : R }.

(** [_getNormalizedCoords(event)], given the bounding rectangle of the
    canvas. *)
Definition _getNormalizedCoords (rect : Rect) (client : Point) : Point :=
  {| x := (x client - left rect) / width rect * 2 - 1;
     y := - ((y client - top rect) / height rect) * 2 + 1 |}.

End Interaction.

(** ** Vocabulary for the scene graph *)

(** The number of meshes that [_build] names after a region: one for a
    face, two for an edge, three for a corner. *)
Definition meshesPerRegion (id : nat) : nat :=
  if (id <=? 0)%nat then 0
  else if (id <=? 6)%nat then 1
  else if (id <=? 18)%nat then 2
  else if (id <=? 26)%nat then 3
  else 0.

Definition namedAfter (id : nat) (face : Scene.Face) : bool :=
  match Scene.name face with
  | Some n => Nat.eqb n id
  | None => false
  end.

(** What [setHover(faceId)] does to one face. *)
Definition hoverFace (this : Scene.t) (faceId : nat) (face : Scene.Face) : Scene.Face :=
  if Scene.truthy (Scene.name face)
  then {| Scene.name := Scene.name face;
          Scene.color :=
            Scene.setHex (if decide (Scene.name face = Some faceId)
                          then Scene._hoverColor this else Scene._bgColor this);
          Scene.map := Scene.map face; Scene.size := Scene.size face;
          Scene.position := Scene.position face;
          Scene.rotations := Scene.rotations face |}
  else face.

(** ** Vocabulary for the interaction layer *)

(** The callbacks registered for an event, in the order of registration. *)
Definition listenersOf (this : Interaction.t) (event : Interaction.EventName)
  : list Interaction.Callback :=
  default [] (Interaction._eventListeners this !! Interaction.key event).

(** One call per callback, with the same arguments. *)
Definition callsTo (cbs : list Interaction.Callback) (args : Interaction.Args)
  : list (Interaction.Callback * Interaction.Args) :=
  List.map (fun cb => (cb, args)) cbs.

(** The successive displacements of a pointer that starts at [from] and
    visits [clients]. *)
Fixpoint displacements (from : Interaction.Point) (clients : list Interaction.Point)
  : list (R * R) :=
  match clients with
  | [] => []
  | client :: rest =>
      (Interaction.x client - Interaction.x from,
       Interaction.y client - Interaction.y from) :: displacements client rest
  end.

Definition sumX (ds : list (R * R)) : R := fold_right (fun d acc => d.1 + acc) 0 ds.
Definition sumY (ds : list (R * R)) : R := fold_right (fun d acc => d.2 + acc) 0 ds.

(** * Properties *)

(** ** Reasoning about tables entry by entry *)

Section TableForall.
Context (P : nat -> FaceConfig -> Prop).

Lemma objectLiteral_from_Forall (props : list (nat * FaceConfig)) (o : FaceConfigs) :
  map_Forall P o ->
  Forall (fun kv => P kv.1 kv.2) props ->
  map_Forall P (foldl (fun o kv => <[kv.1 := kv.2]> o) o props).
Proof.
  intros Ho Hprops. revert o Ho.
  induction Hprops as [|[k v] props Hkv _ IH]; intros o Ho; simpl.
  - exact Ho.
  - apply IH. apply map_Forall_insert_2; assumption.
Qed.

Lemma objectLiteral_Forall (props : list (nat * FaceConfig)) :
  Forall (fun kv => P kv.1 kv.2) props -> map_Forall P (objectLiteral props).
Proof.
  intros H. apply objectLiteral_from_Forall; [apply map_Forall_empty | exact H].
Qed.

Lemma spread_Forall (o src : FaceConfigs) :
  map_Forall P o -> map_Forall P src -> map_Forall P (spread o src).
Proof.
  intros Ho Hsrc k v. unfold spread. rewrite lookup_union_Some_raw.
  intros [H | [_ H]]; [apply (Hsrc _ _ H) | apply (Ho _ _ H)].
Qed.
End TableForall.

(** The keys of an object literal are the keys it lists. *)
Lemma dom_objectLiteral_from (props : list (nat * FaceConfig)) (o : FaceConfigs) :
  dom (foldl (fun o kv => <[kv.1 := kv.2]> o) o props) = list_to_set props.*1 ∪ dom o.
Proof.
  revert o. induction props as [|[k v] props IH]; intros o; simpl.
  - symmetry. apply (left_id_L ∅ (∪)).
  - rewrite IH, dom_insert_L.
    apply set_eq. intros x. rewrite !elem_of_union. tauto.
Qed.

Lemma dom_objectLiteral (props : list (nat * FaceConfig)) :
  dom (objectLiteral props) = list_to_set props.*1.
Proof.
  unfold objectLiteral. rewrite dom_objectLiteral_from, dom_empty_L.
  apply (right_id_L ∅ (∪)).
Qed.

Lemma dom_spread (o src : FaceConfigs) : dom (spread o src) = dom src ∪ dom o.
Proof. unfold spread. apply dom_union_L. Qed.

Lemma elem_of_regionIds (id : nat) : id ∈ regionIds <-> (1 <= id <= 26)%nat.
Proof.
  unfold regionIds. rewrite elem_of_list_to_set, elem_of_seq. lia.
Qed.

Ltac unfold_FACES :=
  unfold FACES.TOP, FACES.FRONT, FACES.RIGHT, FACES.BACK, FACES.LEFT, FACES.BOTTOM,
    FACES.TOP_FRONT_EDGE, FACES.TOP_RIGHT_EDGE, FACES.TOP_BACK_EDGE, FACES.TOP_LEFT_EDGE,
    FACES.FRONT_RIGHT_EDGE, FACES.BACK_RIGHT_EDGE, FACES.BACK_LEFT_EDGE,
    FACES.FRONT_LEFT_EDGE, FACES.BOTTOM_FRONT_EDGE, FACES.BOTTOM_RIGHT_EDGE,
    FACES.BOTTOM_BACK_EDGE, FACES.BOTTOM_LEFT_EDGE,
    FACES.TOP_FRONT_RIGHT_CORNER, FACES.TOP_BACK_RIGHT_CORNER,
    FACES.TOP_BACK_LEFT_CORNER, FACES.TOP_FRONT_LEFT_CORNER,
    FACES.BOTTOM_FRONT_RIGHT_CORNER, FACES.BOTTOM_BACK_RIGHT_CORNER,
    FACES.BOTTOM_BACK_LEFT_CORNER, FACES.BOTTOM_FRONT_LEFT_CORNER in *.

Lemma dom_getZUpFaceConfigs (d : R) : dom (getZUpFaceConfigs d) = regionIds.
Proof.
  unfold getZUpFaceConfigs, getEdgeConfigs, getCornerConfigs.
  rewrite !decide_True by reflexivity.
  rewrite !dom_spread, !dom_objectLiteral. apply set_eq. intros id.
  rewrite elem_of_regionIds, !elem_of_union, !elem_of_list_to_set. simpl.
  rewrite !elem_of_cons, elem_of_nil. unfold_FACES. lia.
Qed.

Lemma dom_getYUpFaceConfigs (d : R) : dom (getYUpFaceConfigs d) = regionIds.
Proof.
  unfold getYUpFaceConfigs, getEdgeConfigs, getCornerConfigs.
  rewrite !decide_False by discriminate.
  rewrite !dom_spread, !dom_objectLiteral. apply set_eq. intros id.
  rewrite elem_of_regionIds, !elem_of_union, !elem_of_list_to_set. simpl.
  rewrite !elem_of_cons, elem_of_nil. unfold_FACES. lia.
Qed.

Lemma elem_of_conventions (cs : string) :
  cs ∈ conventions -> cs = "Y-up"%string \/ cs = "Z-up"%string.
Proof.
  unfold conventions. rewrite !elem_of_cons, elem_of_nil. tauto.
Qed.

Lemma getFaceConfigs_Z (d : R) :
  getFaceConfigs (Some "Z-up"%string) (Some d) = getZUpFaceConfigs d.
Proof. reflexivity. Qed.

Lemma getFaceConfigs_Y (d : R) :
  getFaceConfigs (Some "Y-up"%string) (Some d) = getYUpFaceConfigs d.
Proof. reflexivity. Qed.

(** ** Completeness of the table *)

(** C3: for both conventions and any distance, the keys of the table are
    exactly the 26 region identifiers 1..26: a lookup yields a
    configuration (a record with its [up], [lookAt] and [position]) at
    each of them and [undefined] anywhere else. *)
Theorem table_complete (cs : string) (d : R) :
  cs ∈ conventions ->
  dom (getFaceConfigs (Some cs) (Some d)) = regionIds /\
  size (getFaceConfigs (Some cs) (Some d)) = 26%nat /\
  (forall id : nat,
     (1 <= id <= 26)%nat -> exists c, getFaceConfigs (Some cs) (Some d) !! id = Some c) /\
  (forall id : nat,
     ~ (1 <= id <= 26)%nat -> getFaceConfigs (Some cs) (Some d) !! id = None).
Proof.
  intros Hcs.
  assert (Hdom : dom (getFaceConfigs (Some cs) (Some d)) = regionIds).
  { destruct (elem_of_conventions _ Hcs) as [-> | ->].
    - rewrite getFaceConfigs_Y. apply dom_getYUpFaceConfigs.
    - rewrite getFaceConfigs_Z. apply dom_getZUpFaceConfigs. }
  split; [exact Hdom |]. split; [| split].
  - rewrite <- size_dom, Hdom. reflexivity.
  - intros id Hid. apply elem_of_regionIds in Hid. rewrite <- Hdom in Hid.
    apply elem_of_dom in Hid. destruct Hid as [c Hc]. exists c. exact Hc.
  - intros id Hid. apply not_elem_of_dom. rewrite Hdom, elem_of_regionIds. exact Hid.
Qed.

Lemma table_complete_witness :
  "Z-up"%string ∈ conventions /\
  dom (getFaceConfigs (Some "Z-up"%string) (Some 100)) = regionIds /\
  size (getFaceConfigs (Some "Z-up"%string) (Some 100)) = 26%nat.
Proof.
  assert (Hcs : "Z-up"%string ∈ conventions)
    by (unfold conventions; rewrite !elem_of_cons; right; left; reflexivity).
  destruct (table_complete "Z-up" 100 Hcs) as (Hdom & Hsize & _).
  split; [exact Hcs |]. split; [exact Hdom | exact Hsize].
Defined.

(** ** The two scenarios of the specification *)

(** C7: under Z-up with distance 100, the FRONT configuration is
    up=(0,0,1), lookAt=(0,1,0), position=(0,-100,0). *)
Theorem zup_front_100 :
  getFaceConfigs (Some "Z-up"%string) (Some 100) !! FACES.FRONT =
  Some {| up := mkVec3 0 0 1; lookAt := mkVec3 0 1 0; position := mkVec3 0 (-100) 0 |}.
Proof. reflexivity. Qed.

(** C8: under Y-up with distance 100, the TOP configuration is
    up=(0,0,-1), lookAt=(0,-1,0), position=(0,100,0). *)
Theorem yup_top_100 :
  getFaceConfigs (Some "Y-up"%string) (Some 100) !! FACES.TOP =
  Some {| up := mkVec3 0 0 (-1); lookAt := mkVec3 0 (-1) 0; position := mkVec3 0 100 0 |}.
Proof. reflexivity. Qed.

(** ** Entry-by-entry proofs *)

(** Reduces [map_Forall P] on one of the two tables to [P] at each of
    its 26 literal entries. *)
Ltac by_entries :=
  unfold getZUpFaceConfigs, getYUpFaceConfigs, getEdgeConfigs, getCornerConfigs;
  rewrite ?decide_True by reflexivity;
  rewrite ?decide_False by discriminate;
  repeat apply spread_Forall;
  apply objectLiteral_Forall;
  repeat (apply List.Forall_cons; [cbn [fst snd] |]);
  try apply List.Forall_nil.

Lemma getFaceConfigs_Forall (P : nat -> FaceConfig -> Prop) (cs : string) (d : R) :
  cs ∈ conventions ->
  map_Forall P (getYUpFaceConfigs d) ->
  map_Forall P (getZUpFaceConfigs d) ->
  map_Forall P (getFaceConfigs (Some cs) (Some d)).
Proof.
  intros Hcs HY HZ. destruct (elem_of_conventions _ Hcs) as [-> | ->].
  - rewrite getFaceConfigs_Y. exact HY.
  - rewrite getFaceConfigs_Z. exact HZ.
Qed.

(** ** Norms of the positions *)

Lemma norm_from_normSq (v : Vec3) (k r : R) :
  0 <= k -> 0 <= r -> normSq v = k * (r * r) -> norm v = sqrt k * r.
Proof.
  intros Hk Hr Hv. unfold norm. rewrite Hv.
  rewrite sqrt_mult by nra. rewrite sqrt_square by exact Hr. reflexivity.
Qed.

Lemma sqrt_between (a lo hi : R) :
  0 <= lo -> 0 <= hi -> lo * lo <= a <= hi * hi -> lo <= sqrt a <= hi.
Proof.
  intros Hlo Hhi [H1 H2]. split.
  - rewrite <- (sqrt_square lo) by exact Hlo. apply sqrt_le_1_alt. exact H1.
  - rewrite <- (sqrt_square hi) by exact Hhi. apply sqrt_le_1_alt. exact H2.
Qed.

Lemma sqrt2_bounds : 1.414 <= sqrt 2 <= 1.415.
Proof. apply sqrt_between; lra. Qed.

Lemma sqrt3_bounds : 1.732 <= sqrt 3 <= 1.733.
Proof. apply sqrt_between; lra. Qed.

Lemma codeNorm_near_distance (id : nat) (d : R) :
  0 < d -> relClose 0.001 (codeNorm id d) d.
Proof.
  intros Hd. unfold relClose, codeNorm.
  destruct sqrt2_bounds as [L2 U2]. destruct sqrt3_bounds as [L3 U3].
  assert (H2 : 1.414 * d <= sqrt 2 * d <= 1.415 * d)
    by (split; apply Rmult_le_compat_r; lra).
  assert (H3 : 1.732 * d <= sqrt 3 * d <= 1.733 * d)
    by (split; apply Rmult_le_compat_r; lra).
  rewrite (Rabs_pos_eq d) by lra.
  destruct (id <=? 6)%nat; [| destruct (id <=? 18)%nat]; apply Rabs_le; lra.
Qed.

Lemma face_position_norm (v : Vec3) (d : R) :
  0 < d -> normSq v = d * d -> norm v = codeNorm 1 d.
Proof.
  intros Hd Hv. rewrite (norm_from_normSq v 1 d) by lra.
  rewrite sqrt_1. change (codeNorm 1 d) with d. lra.
Qed.

Lemma edge_position_norm (v : Vec3) (d : R) :
  0 < d -> normSq v = 2 * (d * 0.707 * (d * 0.707)) -> norm v = codeNorm 7 d.
Proof. intros Hd Hv. apply norm_from_normSq; [lra | lra | exact Hv]. Qed.

Lemma corner_position_norm (v : Vec3) (d : R) :
  0 < d -> normSq v = 3 * (d * 0.577 * (d * 0.577)) -> norm v = codeNorm 19 d.
Proof. intros Hd Hv. apply norm_from_normSq; [lra | lra | exact Hv]. Qed.

Ltac position_norm d :=
  first [ apply (face_position_norm _ d)
        | apply (edge_position_norm _ d)
        | apply (corner_position_norm _ d) ];
  [ assumption | unfold normSq; cbn [position cfg vx vy vz]; ring ].

Lemma norms_of_Z_table (d : R) :
  0 < d ->
  map_Forall (fun id c => norm (position c) = codeNorm id d) (getZUpFaceConfigs d).
Proof. intros Hd. by_entries; position_norm d. Qed.

Lemma norms_of_Y_table (d : R) :
  0 < d ->
  map_Forall (fun id c => norm (position c) = codeNorm id d) (getYUpFaceConfigs d).
Proof. intros Hd. by_entries; position_norm d. Qed.

(** C2, as amended: for both conventions and every positive distance [d],
    the norm of a region's position is [d] for the six faces,
    [sqrt 2 * (d * 0.707)] for the twelve edges and
    [sqrt 3 * (d * 0.577)] for the eight corners; each of them is within
    a relative 0.001 of [d]. *)
Theorem position_norms (cs : string) (d : R) (id : nat) (c : FaceConfig) :
  cs ∈ conventions ->
  0 < d ->
  getFaceConfigs (Some cs) (Some d) !! id = Some c ->
  (isFace id -> norm (position c) = d) /\
  (isEdge id -> norm (position c) = sqrt 2 * (d * 0.707)) /\
  (isCorner id -> norm (position c) = sqrt 3 * (d * 0.577)) /\
  relClose 0.001 (norm (position c)) d.
Proof.
  intros Hcs Hd Hc.
  assert (Hn : norm (position c) = codeNorm id d).
  { revert id c Hc. apply getFaceConfigs_Forall;
      [exact Hcs | apply norms_of_Y_table | apply norms_of_Z_table]; exact Hd. }
  rewrite Hn. unfold isFace, isEdge, isCorner.
  repeat split; try apply codeNorm_near_distance; try exact Hd;
    intros Hid; unfold codeNorm;
    destruct (Nat.leb_spec id 6); destruct (Nat.leb_spec id 18); try lia; reflexivity.
Qed.

Lemma position_norms_witness :
  "Z-up"%string ∈ conventions /\ 0 < 100 /\
  getFaceConfigs (Some "Z-up"%string) (Some 100) !! FACES.TOP_FRONT_EDGE =
    Some (cfg 0 0 1  0 1 0  0 (- (100 * 0.707)) (100 * 0.707)) /\
  norm (mkVec3 0 (- (100 * 0.707)) (100 * 0.707)) = sqrt 2 * (100 * 0.707).
Proof.
  assert (Hcs : "Z-up"%string ∈ conventions)
    by (unfold conventions; rewrite !elem_of_cons; right; left; reflexivity).
  assert (Hd : 0 < 100) by lra.
  split; [exact Hcs |]. split; [exact Hd |]. split; [reflexivity |].
  apply (position_norms "Z-up" 100 FACES.TOP_FRONT_EDGE
           (cfg 0 0 1  0 1 0  0 (- (100 * 0.707)) (100 * 0.707)) Hcs Hd eq_refl).
  unfold isEdge, FACES.TOP_FRONT_EDGE. lia.
Defined.

(** C2 as the specification states it fails: under Z-up with distance 100
    the position of TOP_FRONT_EDGE, (0, -70.7, 70.7), has a norm of about
    99.98, which is not within 1e-9 of 100 * (sqrt 2 / 2), about 70.71. *)
Lemma zup_top_front_edge_norm_off :
  exists c : FaceConfig,
    getFaceConfigs (Some "Z-up"%string) (Some 100) !! FACES.TOP_FRONT_EDGE = Some c /\
    ~ relClose 1e-9 (norm (position c)) (specNorm FACES.TOP_FRONT_EDGE 100).
Proof.
  exists (cfg 0 0 1  0 1 0  0 (- (100 * 0.707)) (100 * 0.707)).
  split; [reflexivity |].
  rewrite (edge_position_norm _ 100)
    by (try lra; unfold normSq; cbn [position cfg vx vy vz]; ring).
  change (codeNorm 7 100) with (sqrt 2 * (100 * 0.707)).
  change (specNorm FACES.TOP_FRONT_EDGE 100) with (100 * (sqrt 2 / 2)).
  unfold relClose. destruct sqrt2_bounds as [L2 U2]. intros H.
  rewrite (Rabs_pos_eq (sqrt 2 * (100 * 0.707) - 100 * (sqrt 2 / 2))) in H by lra.
  rewrite (Rabs_pos_eq (100 * (sqrt 2 / 2))) in H by lra.
  lra.
Qed.

(** ** Where the edges look *)

Ltac not_listed Hin :=
  exfalso; revert Hin; unfold topBottomEdges, sideEdges;
  rewrite ?elem_of_cons, elem_of_nil; unfold_FACES; lia.

Ltac listed_direction :=
  unfold cardinalDirections; cbn [lookAt cfg]; rewrite !elem_of_cons;
  repeat first [ left; reflexivity | right ].

Lemma Z_edges_lookAt (d : R) :
  map_Forall
    (fun id c =>
       (id ∈ topBottomEdges -> lookAt c ∈ cardinalDirections) /\
       (id ∈ sideEdges -> lookAt c = origin))
    (getZUpFaceConfigs d).
Proof.
  by_entries; (split; intros Hin; first [ not_listed Hin | reflexivity | listed_direction ]).
Qed.

Lemma Y_edges_lookAt (d : R) :
  map_Forall (fun id c => isEdge id -> lookAt c = origin) (getYUpFaceConfigs d).
Proof.
  by_entries; intros Hid; first [ reflexivity | unfold isEdge in Hid; unfold_FACES; lia ].
Qed.

Lemma origin_not_cardinal : origin ∉ cardinalDirections.
Proof.
  unfold cardinalDirections, origin. rewrite !elem_of_cons, elem_of_nil.
  intros H. repeat destruct H as [H | H]; try (injection H; intros; lra). exact H.
Qed.

(** C5, as amended: under Z-up the lookAt of each of the eight top and
    bottom edges is a cardinal axis direction and the lookAt of each of
    the four side edges is the origin; under Y-up the lookAt of every one
    of the twelve edges is the origin.  This holds for any distance. *)
Theorem edge_lookAt (d : R) (id : nat) (c : FaceConfig) :
  (getFaceConfigs (Some "Z-up"%string) (Some d) !! id = Some c ->
     (id ∈ topBottomEdges -> lookAt c ∈ cardinalDirections) /\
     (id ∈ sideEdges -> lookAt c = origin)) /\
  (getFaceConfigs (Some "Y-up"%string) (Some d) !! id = Some c ->
     isEdge id -> lookAt c = origin).
Proof.
  split.
  - rewrite getFaceConfigs_Z. apply Z_edges_lookAt.
  - rewrite getFaceConfigs_Y. apply Y_edges_lookAt.
Qed.

Lemma edge_lookAt_witness :
  getFaceConfigs (Some "Z-up"%string) (Some 100) !! FACES.TOP_RIGHT_EDGE =
    Some (cfg 0 0 1  1 0 0  (100 * 0.707) 0 (100 * 0.707)) /\
  FACES.TOP_RIGHT_EDGE ∈ topBottomEdges /\
  mkVec3 1 0 0 ∈ cardinalDirections.
Proof.
  assert (Hin : FACES.TOP_RIGHT_EDGE ∈ topBottomEdges)
    by (unfold topBottomEdges; rewrite !elem_of_cons; right; left; reflexivity).
  split; [reflexivity |]. split; [exact Hin |].
  exact (proj1 (proj1 (edge_lookAt 100 FACES.TOP_RIGHT_EDGE
                         (cfg 0 0 1  1 0 0  (100 * 0.707) 0 (100 * 0.707))) eq_refl) Hin).
Defined.

(** C5 as the specification states it fails under Y-up: with distance 100
    the top edge TOP_FRONT_EDGE looks at the origin, which is not a
    cardinal axis direction. *)
Lemma yup_top_front_edge_looks_at_origin :
  exists c : FaceConfig,
    "Y-up"%string ∈ conventions /\ 0 < 100 /\
    getFaceConfigs (Some "Y-up"%string) (Some 100) !! FACES.TOP_FRONT_EDGE = Some c /\
    FACES.TOP_FRONT_EDGE ∈ topBottomEdges /\
    lookAt c ∉ cardinalDirections.
Proof.
  exists (cfg 0 1 0  0 0 0  0 (100 * 0.707) (100 * 0.707)).
  split; [| split; [| split; [reflexivity | split]]].
  - unfold conventions. rewrite !elem_of_cons. left; reflexivity.
  - lra.
  - unfold topBottomEdges. rewrite !elem_of_cons. left; reflexivity.
  - exact origin_not_cardinal.
Qed.

(** ** Non-degeneracy of the configurations *)










(** Over the reals the second degenerate distance of the Z-up table is
    1000/707, where [d * 0.707] is 1: TOP_RIGHT_EDGE then has
    position = (1,0,1) and lookAt - position = (0,0,-1), and up = (0,0,1)
    is -1 times it.  (Among the doubles the distance is another one, see
    [binary64_edge_offset_one].) *)
Remark zup_top_right_edge_up_along_gaze :
  exists c : FaceConfig,
    getFaceConfigs (Some "Z-up"%string) (Some (1000 / 707)) !! FACES.TOP_RIGHT_EDGE
      = Some c /\
    parallel (up c) (vsub (lookAt c) (position c)).
Proof.
  exists (cfg 0 0 1  1 0 0  (1000 / 707 * 0.707) 0 (1000 / 707 * 0.707)).
  split; [reflexivity |].
  left. exists (-1). unfold vsub, vscale. cbn [up lookAt position cfg vx vy vz].
  f_equal; lra.
Qed.

(** At distance 1 the Z-up RIGHT face has lookAt = position = (1,0,0): the
    direction of gaze is the zero vector there. *)
Remark zup_right_gaze_at_distance_1 :
  exists c : FaceConfig,
    getFaceConfigs (Some "Z-up"%string) (Some 1) !! FACES.RIGHT = Some c /\
    gaze c = origin.
Proof.
  exists (cfg 0 0 1  1 0 0  1 0 0). split; [reflexivity |].
  unfold gaze, vsub, origin. cbn [lookAt position cfg vx vy vz]. f_equal; lra.
Qed.

(** Away from distance 1 under Z-up, the direction of gaze is never the
    zero vector. *)
Lemma gaze_nonzero (cs : string) (d : R) (id : nat) (c : FaceConfig) :
  cs ∈ conventions ->
  0 < d ->
  (cs = "Z-up"%string -> d <> 1) ->
  getFaceConfigs (Some cs) (Some d) !! id = Some c ->
  gaze c <> origin.
Proof.
  intros Hcs Hd Hne. revert id c.
  destruct (elem_of_conventions _ Hcs) as [-> | ->].
  - rewrite getFaceConfigs_Y. clear Hne.
    by_entries; unfold gaze, vsub, origin; cbn [lookAt position cfg vx vy vz];
      intros H; injection H; intros; lra.
  - rewrite getFaceConfigs_Z. specialize (Hne eq_refl).
    by_entries; unfold gaze, vsub, origin; cbn [lookAt position cfg vx vy vz];
      intros H; injection H; intros; first [ lra | apply Hne; lra ].
Qed.

(** The distance of the degenerate Z-up edges exists among the doubles:
    for [d = 1.4144271570014146] the rounded product [d * 0.707] is
    exactly 1, and for the double just below it is not. *)
Remark binary64_edge_offset_one :
  Binary64.e 0x1.6a17e5ede5349p+0 = 1%float /\
  PrimFloat.eqb (Binary64.e 0x1.6a17e5ede5348p+0) 1 = false.
Proof. split; reflexivity. Qed.

(** At that double the x coordinate of lookAt - position of the Z-up
    TOP_RIGHT_EDGE is zero in binary64 arithmetic, although the exact
    product [d * 0.707] is not 1: the double, about 1.4144271570014146,
    lies within 1e-9 of the
    degenerate distance of the reals, inside the margin that the amended
    non-degeneracy statement leaves out. *)
Remark binary64_edge_gaze_vanishes :
  Binary64.gazeX 0x1.6a17e5ede5349p+0 = 0%float /\
  Rabs (1.4144271570014146 * 0.707 - 1) < 1e-9.
Proof.
  split; [reflexivity |]. apply Rabs_def1; lra.
Qed.

(** ** The orientation synchronizer *)

Lemma sqrt2_half_sq : sqrt 2 / 2 * (sqrt 2 / 2) = 1 / 2.
Proof.
  assert (H : sqrt 2 * sqrt 2 = 2) by (apply sqrt_sqrt; lra). lra.
Qed.

Lemma sin_quarter_turn : sin (PI / 2 / 2) = sqrt 2 / 2.
Proof.
  replace (PI / 2 / 2) with (PI / 4) by lra. rewrite sin_PI4.
  assert (H : sqrt 2 * sqrt 2 = 2) by (apply sqrt_sqrt; lra).
  assert (H0 : sqrt 2 <> 0) by (destruct sqrt2_bounds; lra).
  apply (Rmult_eq_reg_r (sqrt 2)); [| exact H0]. field_simplify; [lra | exact H0].
Qed.

Lemma cos_quarter_turn : cos (PI / 2 / 2) = sqrt 2 / 2.
Proof.
  replace (PI / 2 / 2) with (PI / 4) by lra. rewrite cos_PI4.
  assert (H : sqrt 2 * sqrt 2 = 2) by (apply sqrt_sqrt; lra).
  assert (H0 : sqrt 2 <> 0) by (destruct sqrt2_bounds; lra).
  apply (Rmult_eq_reg_r (sqrt 2)); [| exact H0]. field_simplify; [lra | exact H0].
Qed.

(** The Z-up correction is the quaternion (sqrt 2 / 2, 0, 0, sqrt 2 / 2). *)
Lemma correction_Z_value :
  correction "Z-up" = THREE.mkQuaternion (sqrt 2 / 2) 0 0 (sqrt 2 / 2).
Proof.
  unfold correction. rewrite decide_True by reflexivity.
  unfold THREE.setFromAxisAngle. cbn [vx vy vz].
  rewrite sin_quarter_turn, cos_quarter_turn. f_equal; lra.
Qed.

Lemma correction_Y_value : correction "Y-up" = THREE.identity.
Proof. reflexivity. Qed.

(** It is a unit quaternion, and turns the Y axis onto the Z axis and the
    Z axis onto the negative Y axis: a quarter turn about X, counted
    positively. *)
Lemma correction_Z_unit : THREE.lengthSq (correction "Z-up") = 1.
Proof.
  rewrite correction_Z_value. unfold THREE.lengthSq. cbn.
  pose proof sqrt2_half_sq. lra.
Qed.

Lemma correction_Z_rotates :
  rotate (correction "Z-up") (mkVec3 1 0 0) = mkVec3 1 0 0 /\
  rotate (correction "Z-up") (mkVec3 0 1 0) = mkVec3 0 0 1 /\
  rotate (correction "Z-up") (mkVec3 0 0 1) = mkVec3 0 (-1) 0.
Proof.
  rewrite correction_Z_value. pose proof sqrt2_half_sq as H.
  unfold rotate, THREE.multiplyQuaternions, THREE.conjugate.
  cbn [THREE._x THREE._y THREE._z THREE._w vx vy vz].
  repeat split; f_equal; lra.
Qed.

(** For a unit quaternion, [invert] gives the inverse rotation. *)
Lemma invert_unit (q : THREE.Quaternion) :
  THREE.lengthSq q = 1 ->
  THREE.multiplyQuaternions q (THREE.invert q) = THREE.identity /\
  THREE.multiplyQuaternions (THREE.invert q) q = THREE.identity.
Proof.
  destruct q as [x y z w]. unfold THREE.lengthSq. cbn. intros H.
  unfold THREE.multiplyQuaternions, THREE.invert, THREE.conjugate, THREE.identity. cbn.
  split; f_equal; lra.
Qed.

Lemma multiplyQuaternions_identity_r (q : THREE.Quaternion) :
  THREE.multiplyQuaternions q THREE.identity = q.
Proof.
  destruct q as [x y z w]. unfold THREE.multiplyQuaternions, THREE.identity. cbn.
  f_equal; lra.
Qed.

Lemma multiplyQuaternions_identity_l (q : THREE.Quaternion) :
  THREE.multiplyQuaternions THREE.identity q = q.
Proof.
  destruct q as [x y z w]. unfold THREE.multiplyQuaternions, THREE.identity. cbn.
  f_equal; lra.
Qed.

Lemma invert_identity : THREE.invert THREE.identity = THREE.identity.
Proof. unfold THREE.invert, THREE.conjugate, THREE.identity. cbn. f_equal; lra. Qed.

(** C1: for every unit quaternion [q] and both conventions, the rotation
    that [setQuaternion] gives the cube is [invert q] (the inverse of [q])
    multiplied by the correction of the convention: the identity under
    Y-up, the rotation by +90 degrees about X under Z-up.  For the
    identity camera orientation it is the identity under Y-up and the
    correction itself under Z-up. *)
Theorem setQuaternion_inverts_and_corrects (this : ViewCubeMesh.t) (q : THREE.Quaternion) :
  ViewCubeMesh.coordinateSystem this ∈ conventions ->
  THREE.lengthSq q = 1 ->
  ViewCubeMesh.quaternion (ViewCubeMesh.setQuaternion this q) =
    THREE.multiplyQuaternions (THREE.invert q)
      (correction (ViewCubeMesh.coordinateSystem this)) /\
  THREE.multiplyQuaternions q (THREE.invert q) = THREE.identity /\
  (ViewCubeMesh.coordinateSystem this = "Y-up"%string ->
     correction (ViewCubeMesh.coordinateSystem this) = THREE.identity /\
     ViewCubeMesh.quaternion (ViewCubeMesh.setQuaternion this THREE.identity) =
       THREE.identity) /\
  (ViewCubeMesh.coordinateSystem this = "Z-up"%string ->
     correction (ViewCubeMesh.coordinateSystem this) =
       THREE.setFromAxisAngle (mkVec3 1 0 0) (PI / 2) /\
     ViewCubeMesh.quaternion (ViewCubeMesh.setQuaternion this THREE.identity) =
       THREE.setFromAxisAngle (mkVec3 1 0 0) (PI / 2)).
Proof.
  intros Hcs Hq. destruct this as [cs q0]. cbn [ViewCubeMesh.coordinateSystem] in *.
  pose proof (proj1 (invert_unit q Hq)) as Hinv.
  unfold ViewCubeMesh.setQuaternion, ViewCubeMesh.setRotationFromQuaternion, correction.
  cbn [ViewCubeMesh.coordinateSystem ViewCubeMesh.quaternion].
  destruct (elem_of_conventions _ Hcs) as [-> | ->].
  - rewrite !decide_False by discriminate.
    cbn [ViewCubeMesh.quaternion].
    rewrite multiplyQuaternions_identity_r, invert_identity.
    split; [reflexivity |]. split; [exact Hinv |].
    split; [intros _; split; reflexivity |].
    intros H; discriminate H.
  - rewrite !decide_True by reflexivity.
    cbn [ViewCubeMesh.quaternion].
    rewrite invert_identity, multiplyQuaternions_identity_l.
    split; [reflexivity |]. split; [exact Hinv |].
    split; [intros H; discriminate H |].
    intros _; split; reflexivity.
Qed.

Lemma setQuaternion_inverts_and_corrects_witness :
  "Z-up"%string ∈ conventions /\
  THREE.lengthSq (THREE.mkQuaternion 0.6 0 0 0.8) = 1 /\
  ViewCubeMesh.quaternion
    (ViewCubeMesh.setQuaternion (ViewCubeMesh.new (Some "Z-up"%string))
       (THREE.mkQuaternion 0.6 0 0 0.8)) =
  THREE.multiplyQuaternions (THREE.invert (THREE.mkQuaternion 0.6 0 0 0.8))
    (correction "Z-up").
Proof.
  assert (Hcs : "Z-up"%string ∈ conventions)
    by (unfold conventions; rewrite !elem_of_cons; right; left; reflexivity).
  assert (Hq : THREE.lengthSq (THREE.mkQuaternion 0.6 0 0 0.8) = 1)
    by (unfold THREE.lengthSq; cbn; lra).
  split; [exact Hcs |]. split; [exact Hq |].
  exact (proj1 (setQuaternion_inverts_and_corrects
                  (ViewCubeMesh.new (Some "Z-up"%string))
                  (THREE.mkQuaternion 0.6 0 0 0.8) Hcs Hq)).
Defined.

(** C9: for every unit quaternion [q], under Y-up the rotation that
    [setQuaternion] gives the cube, multiplied by [q], is the identity. *)
Theorem yup_sync_undoes_camera (this : ViewCubeMesh.t) (q : THREE.Quaternion) :
  ViewCubeMesh.coordinateSystem this = "Y-up"%string ->
  THREE.lengthSq q = 1 ->
  THREE.multiplyQuaternions
    (ViewCubeMesh.quaternion (ViewCubeMesh.setQuaternion this q)) q = THREE.identity.
Proof.
  intros Hcs Hq. unfold ViewCubeMesh.setQuaternion. rewrite Hcs.
  rewrite decide_False by discriminate.
  cbn [ViewCubeMesh.setRotationFromQuaternion ViewCubeMesh.quaternion].
  apply invert_unit. exact Hq.
Qed.

Lemma yup_sync_undoes_camera_witness :
  THREE.lengthSq (THREE.mkQuaternion 0.6 0 0 0.8) = 1 /\
  THREE.multiplyQuaternions
    (ViewCubeMesh.quaternion
       (ViewCubeMesh.setQuaternion (ViewCubeMesh.new (Some "Y-up"%string))
          (THREE.mkQuaternion 0.6 0 0 0.8)))
    (THREE.mkQuaternion 0.6 0 0 0.8) = THREE.identity.
Proof.
  assert (Hq : THREE.lengthSq (THREE.mkQuaternion 0.6 0 0 0.8) = 1)
    by (unfold THREE.lengthSq; cbn; lra).
  split; [exact Hq |].
  exact (yup_sync_undoes_camera (ViewCubeMesh.new (Some "Y-up"%string))
           (THREE.mkQuaternion 0.6 0 0 0.8) eq_refl Hq).
Defined.

(** ** Defaults and unrecognised conventions *)

Lemma getFaceConfigs_undefined (d : option R) :
  getFaceConfigs None d = getZUpFaceConfigs (default 100 d).
Proof. reflexivity. Qed.

Lemma getFaceConfigs_not_Z (cs : string) (d : option R) :
  cs <> "Z-up"%string -> getFaceConfigs (Some cs) d = getYUpFaceConfigs (default 100 d).
Proof.
  intros Hcs. unfold getFaceConfigs. cbn [default option_rect from_option].
  rewrite decide_False by exact Hcs. reflexivity.
Qed.

(** The two tables differ at every distance, already at TOP. *)
Lemma tables_differ (d : R) : getZUpFaceConfigs d <> getYUpFaceConfigs d.
Proof.
  intros H.
  assert (HZ : getZUpFaceConfigs d !! FACES.TOP = Some (cfg 0 1 0  0 0 (-1)  0 0 d))
    by reflexivity.
  assert (HY : getYUpFaceConfigs d !! FACES.TOP = Some (cfg 0 0 (-1)  0 (-1) 0  0 d 0))
    by reflexivity.
  rewrite H, HY in HZ. injection HZ. intros. lra.
Qed.

(** C4, as amended: for every coordinate-system string outside
    {Y-up, Z-up} and any distance (given or not), the call of the table
    builder returns normally, with the Y-up table for that distance. *)
Theorem unrecognised_convention_gives_Y_table (cs : string) (d : option R) :
  cs ∉ conventions ->
  call_getFaceConfigs (Some cs) d = Normal (getYUpFaceConfigs (default 100 d)) /\
  ~ throws (call_getFaceConfigs (Some cs) d).
Proof.
  intros Hcs. unfold call_getFaceConfigs. split; [| exact (fun H => H)].
  f_equal. apply getFaceConfigs_not_Z. intros ->. apply Hcs.
  unfold conventions. rewrite !elem_of_cons. right; left; reflexivity.
Qed.

Lemma X_up_not_a_convention : "X-up"%string ∉ conventions.
Proof.
  unfold conventions. rewrite !elem_of_cons, elem_of_nil.
  intros [H | [H | H]]; [discriminate H | discriminate H | exact H].
Qed.

Lemma unrecognised_convention_gives_Y_table_witness :
  ("X-up"%string ∉ conventions) /\
  call_getFaceConfigs (Some "X-up"%string) (Some 100) = Normal (getYUpFaceConfigs 100).
Proof.
  split; [exact X_up_not_a_convention |].
  exact (proj1 (unrecognised_convention_gives_Y_table "X-up" (Some 100)
                  X_up_not_a_convention)).
Defined.

(** C4 as the specification states it fails: the call with the
    unrecognised string X-up and distance 100 does not throw. *)
Lemma x_up_call_does_not_throw :
  ("X-up"%string ∉ conventions) /\
  ~ throws (call_getFaceConfigs (Some "X-up"%string) (Some 100)).
Proof.
  split; [exact X_up_not_a_convention |]. unfold call_getFaceConfigs, throws. tauto.
Qed.

(** C10: a call of the table builder without arguments returns the Z-up
    table for distance 100 (an omitted coordinate system selects Z-up, an
    omitted distance 100), whereas a string other than Z-up selects the
    Y-up table, which is a different table; the constructor resolves
    absent [coordinateSystem] and [cameraDistance] options to Z-up and 100
    and, given a container, stores the table of the no-argument call. *)
Theorem defaults_are_Z_up_100 :
  getFaceConfigs None None = getZUpFaceConfigs 100 /\
  (forall d : option R, getFaceConfigs None d = getZUpFaceConfigs (default 100 d)) /\
  (forall (cs : string) (d : option R),
     cs <> "Z-up"%string ->
     getFaceConfigs (Some cs) d = getYUpFaceConfigs (default 100 d) /\
     getFaceConfigs (Some cs) d <> getFaceConfigs None d) /\
  (forall container : option nat,
     ViewCube.resolve
       {| ViewCube.container := container;
          ViewCube.coordinateSystem := None;
          ViewCube.cameraDistance := None |} =
     {| ViewCube._container := container;
        ViewCube._coordinateSystem := "Z-up";
        ViewCube._cameraDistance := 100 |}) /\
  (forall element : nat,
     exists this : ViewCube.t,
       ViewCube.constructor
         (Some {| ViewCube.container := Some element;
                  ViewCube.coordinateSystem := None;
                  ViewCube.cameraDistance := None |}) = Normal this /\
       ViewCube._faceConfigs this = getFaceConfigs None None /\
       ViewCubeMesh.coordinateSystem (ViewCube._cube this) = "Z-up"%string).
Proof.
  split; [reflexivity |]. split; [exact getFaceConfigs_undefined |].
  split; [| split].
  - intros cs d Hcs. rewrite getFaceConfigs_not_Z by exact Hcs.
    split; [reflexivity |]. rewrite getFaceConfigs_undefined.
    intros H. exact (tables_differ _ (eq_sym H)).
  - intros container. reflexivity.
  - intros element. eexists. split; [reflexivity |]. split; reflexivity.
Qed.

Lemma defaults_are_Z_up_100_witness :
  "z-up"%string <> "Z-up"%string /\
  getFaceConfigs (Some "z-up"%string) None = getYUpFaceConfigs 100.
Proof.
  assert (H : "z-up"%string <> "Z-up"%string) by discriminate.
  split; [exact H |].
  exact (proj1 (proj1 (proj2 (proj2 defaults_are_Z_up_100)) "z-up"%string None H)).
Defined.

(** Without a container the constructor throws, whatever the other
    options: this is the one [throw] of the sources. *)
Lemma constructor_requires_container (cs : option string) (d : option R) :
  throws (ViewCube.constructor
            (Some {| ViewCube.container := None;
                     ViewCube.coordinateSystem := cs;
                     ViewCube.cameraDistance := d |})) /\
  throws (ViewCube.constructor None).
Proof. split; exact I. Qed.

(** The constructor's [||] also replaces an empty string and a zero
    distance, which the default parameters of [getFaceConfigs] keep. *)
Lemma constructor_falsy_options (element : nat) :
  ViewCube.resolve
    {| ViewCube.container := Some element;
       ViewCube.coordinateSystem := Some EmptyString;
       ViewCube.cameraDistance := Some 0 |} =
  {| ViewCube._container := Some element;
     ViewCube._coordinateSystem := "Z-up";
     ViewCube._cameraDistance := 100 |}.
Proof.
  unfold ViewCube.resolve, or_string, or_number.
  cbn [ViewCube.container ViewCube.coordinateSystem ViewCube.cameraDistance].
  rewrite decide_True by reflexivity.
  destruct (Req_dec_T 0 0) as [_ | H]; [reflexivity | contradiction H; reflexivity].
Qed.

(** [update] passes the camera's orientation to the cube and leaves the
    table alone. *)
Lemma update_keeps_table (this : ViewCube.t) (camera_quaternion : option THREE.Quaternion) :
  ViewCube._faceConfigs (ViewCube.update this camera_quaternion) =
    ViewCube._faceConfigs this /\
  ViewCube._cube (ViewCube.update this camera_quaternion) =
    from_option (ViewCubeMesh.setQuaternion (ViewCube._cube this))
      (ViewCube._cube this) camera_quaternion.
Proof. destruct camera_quaternion; split; reflexivity. Qed.

(** * Further properties of the code *)

(** ** [getFaceName] *)

(** A property of the identifiers 1..26 can be checked one by one. *)
Lemma region_cases (P : nat -> Prop) :
  List.Forall P (seq 1 26) -> forall id : nat, (1 <= id <= 26)%nat -> P id.
Proof.
  intros H id Hid. rewrite List.Forall_forall in H. apply H. apply in_seq. lia.
Qed.

Lemma getFaceName_outside (faceId : nat) :
  ~ (1 <= faceId <= 26)%nat -> getFaceName faceId = "UNKNOWN"%string.
Proof.
  intros H.
  do 27 (destruct faceId as [| faceId]; [first [reflexivity | exfalso; apply H; lia] |]).
  reflexivity.
Qed.

Lemma getFaceName_distinct_check :
  forallb
    (fun a =>
       forallb
         (fun b => implb (String.eqb (getFaceName a) (getFaceName b)) (Nat.eqb a b))
         (seq 1 26))
    (seq 1 26) = true.
Proof. vm_compute. reflexivity. Qed.

(** X1: [getFaceName] inverts [FACES]: every property of [FACES] is found
    back from its value, two identifiers in 1..26 never share a name, and
    the name is UNKNOWN exactly for the numbers outside 1..26. *)
Theorem getFaceName_inverts_FACES :
  (forall (name : string) (faceId : nat),
     (name, faceId) ∈ FACES_entries -> getFaceName faceId = name) /\
  (forall a b : nat,
     (1 <= a <= 26)%nat -> (1 <= b <= 26)%nat ->
     getFaceName a = getFaceName b -> a = b) /\
  (forall faceId : nat,
     getFaceName faceId = "UNKNOWN"%string <-> ~ (1 <= faceId <= 26)%nat).
Proof.
  split; [| split].
  - intros name faceId. unfold FACES_entries. rewrite !elem_of_cons, elem_of_nil.
    intros H. repeat destruct H as [H | H]; try (injection H as -> ->; reflexivity).
    contradiction.
  - intros a b Ha Hb Hab.
    pose proof getFaceName_distinct_check as H.
    rewrite forallb_forall in H. specialize (H a). rewrite in_seq in H.
    specialize (H ltac:(lia)). rewrite forallb_forall in H. specialize (H b).
    rewrite in_seq in H. specialize (H ltac:(lia)).
    rewrite Hab, String.eqb_refl in H. apply Nat.eqb_eq. exact H.
  - intros faceId. split; [| apply getFaceName_outside].
    intros H Hin.
    do 27 (destruct faceId as [| faceId]; [first [lia | discriminate H] |]). lia.
Qed.

Lemma getFaceName_inverts_FACES_witness :
  (("TOP_BACK_EDGE"%string, 9%nat) ∈ FACES_entries) /\
  getFaceName 9 = "TOP_BACK_EDGE"%string.
Proof.
  assert (H : ("TOP_BACK_EDGE"%string, 9%nat) ∈ FACES_entries).
  { unfold FACES_entries. rewrite !elem_of_cons. do 8 right. left. reflexivity. }
  split; [exact H |].
  exact (proj1 getFaceName_inverts_FACES "TOP_BACK_EDGE"%string 9%nat H).
Defined.

(** ** [utils.js] *)

Ltac by_Rabs_cases :=
  pose proof PI_RGT_0; unfold Utils.TWO_PI, Rabs in *;
  repeat destruct Rcase_abs; try lra.

(** X2: [calculateAngleDelta] returns the direct difference shifted by
    -1, 0 or 1 full turn, never longer than the direct difference; the
    result lies in [-PI, PI] exactly when the direct difference is at most
    3 PI in absolute value (a single turn is all it ever removes). *)
Theorem calculateAngleDelta_shortest (from to : R) :
  (exists k : Z,
     (-1 <= k <= 1)%Z /\
     Utils.calculateAngleDelta from to = to - from + IZR k * Utils.TWO_PI) /\
  Rabs (Utils.calculateAngleDelta from to) <= Rabs (to - from) /\
  (Rabs (Utils.calculateAngleDelta from to) <= PI <-> Rabs (to - from) <= 3 * PI).
Proof.
  unfold Utils.calculateAngleDelta.
  destruct (Rgt_dec (Rabs (to - from)) (Rabs (to - from - Utils.TWO_PI))) as [HA | HA];
    [| destruct (Rgt_dec (Rabs (to - from)) (Rabs (to - from + Utils.TWO_PI))) as [HB | HB]].
  - split; [exists (-1)%Z; split; [lia | lra] |]. split; [lra |]. split; by_Rabs_cases.
  - split; [exists 1%Z; split; [lia | lra] |]. split; [lra |]. split; by_Rabs_cases.
  - split; [exists 0%Z; split; [lia | lra] |]. split; [lra |]. split; by_Rabs_cases.
Qed.

Lemma cube_monotone (a b : R) : a <= b -> a * a * a <= b * b * b.
Proof.
  intros H.
  assert (H0 : 0 <= (b - a) * ((a + b / 2) * (a + b / 2) + 3 / 4 * (b * b))).
  { apply Rmult_le_pos; [lra |]. nra. }
  lra.
Qed.

Lemma easeInOutCubic_below (t : R) : t < 0.5 -> Utils.easeInOutCubic t = 4 * (t * t * t).
Proof.
  intros H. unfold Utils.easeInOutCubic. destruct (Rlt_dec t 0.5); lra.
Qed.

Lemma easeInOutCubic_above (t : R) :
  0.5 <= t -> Utils.easeInOutCubic t = 1 - 4 * ((1 - t) * (1 - t) * (1 - t)).
Proof.
  intros H. unfold Utils.easeInOutCubic. destruct (Rlt_dec t 0.5); [lra |]. simpl. lra.
Qed.

(** X3: [easeInOutCubic] starts at 0 and ends at 1, is symmetric about
    the point (1/2, 1/2), never decreases, and keeps [0, 1] within
    [0, 1]. *)
Theorem easeInOutCubic_shape :
  Utils.easeInOutCubic 0 = 0 /\
  Utils.easeInOutCubic 1 = 1 /\
  (forall t : R, Utils.easeInOutCubic (1 - t) = 1 - Utils.easeInOutCubic t) /\
  (forall a b : R, a <= b -> Utils.easeInOutCubic a <= Utils.easeInOutCubic b) /\
  (forall t : R, 0 <= t <= 1 -> 0 <= Utils.easeInOutCubic t <= 1).
Proof.
  assert (H0 : Utils.easeInOutCubic 0 = 0) by (rewrite easeInOutCubic_below; lra).
  assert (H1 : Utils.easeInOutCubic 1 = 1) by (rewrite easeInOutCubic_above; lra).
  assert (Hmono : forall a b : R,
             a <= b -> Utils.easeInOutCubic a <= Utils.easeInOutCubic b).
  { intros a b Hab.
    destruct (Rlt_dec a 0.5) as [Ha | Ha]; destruct (Rlt_dec b 0.5) as [Hb | Hb].
    - rewrite !easeInOutCubic_below by assumption.
      pose proof (cube_monotone a b Hab). lra.
    - rewrite easeInOutCubic_below, easeInOutCubic_above by lra.
      pose proof (cube_monotone a 0.5 ltac:(lra)).
      pose proof (cube_monotone (1 - b) 0.5 ltac:(lra)). lra.
    - lra.
    - rewrite !easeInOutCubic_above by lra.
      pose proof (cube_monotone (1 - b) (1 - a) ltac:(lra)). lra. }
  split; [exact H0 |]. split; [exact H1 |]. split; [| split; [exact Hmono |]].
  - intros t. destruct (Rlt_dec t 0.5) as [Ht | Ht].
    + rewrite (easeInOutCubic_above (1 - t)), (easeInOutCubic_below t) by lra. lra.
    + destruct (Req_dec_T t 0.5) as [-> | Hne].
      * replace (1 - 0.5) with 0.5 by lra. rewrite easeInOutCubic_above; lra.
      * rewrite (easeInOutCubic_below (1 - t)), (easeInOutCubic_above t) by lra. lra.
  - intros t [Hl Hu].
    pose proof (Hmono 0 t Hl) as A. pose proof (Hmono t 1 Hu) as B.
    rewrite H0 in A. rewrite H1 in B. split; assumption.
Qed.

Lemma easeInOutCubic_shape_witness :
  0.25 <= 0.75 /\ Utils.easeInOutCubic 0.25 <= Utils.easeInOutCubic 0.75.
Proof.
  assert (H : 0.25 <= 0.75) by lra.
  split; [exact H |].
  exact (proj1 (proj2 (proj2 (proj2 easeInOutCubic_shape))) 0.25 0.75 H).
Defined.






Lemma length_nonneg (v : Vec3) : 0 <= Utils.length v.
Proof. apply sqrt_pos. Qed.

Lemma length_sq (v : Vec3) :
  Utils.length v * Utils.length v = vx v * vx v + vy v * vy v + vz v * vz v.
Proof. unfold Utils.length. apply sqrt_sqrt. nra. Qed.

Lemma length_pos (v : Vec3) : v <> origin -> 0 < Utils.length v.
Proof.
  intros Hv. destruct (length_nonneg v) as [H | H]; [exact H | exfalso].
  pose proof (length_sq v) as Hsq. rewrite <- H in Hsq.
  apply Hv. destruct v as [x y z]. cbn in Hsq. unfold origin.
  assert (x = 0) by nra. assert (y = 0) by nra. assert (z = 0) by nra.
  subst. reflexivity.
Qed.

Lemma sphericalToCartesian_length_aux (r theta phi : R) :
  Utils.length (Utils.sphericalToCartesian r theta phi) = Rabs r.
Proof.
  unfold Utils.length, Utils.sphericalToCartesian. cbn [vx vy vz].
  pose proof (sin2_cos2 theta) as Ht. pose proof (sin2_cos2 phi) as Hp.
  unfold Rsqr in Ht, Hp.
  replace (r * sin phi * cos theta * (r * sin phi * cos theta) +
           r * sin phi * sin theta * (r * sin phi * sin theta) +
           r * cos phi * (r * cos phi))
    with (r * r * (sin phi * sin phi * (sin theta * sin theta + cos theta * cos theta)
                   + cos phi * cos phi)) by ring.
  rewrite Ht, Rmult_1_r, Hp, Rmult_1_r. apply sqrt_Rsqr_abs.
Qed.

(** X5: [sphericalToCartesian] gives a vector of length [|r|], whatever
    the angles; in particular two calls with the same [r] give points of
    the same sphere about the origin. *)
Theorem sphericalToCartesian_length (r theta phi theta' phi' : R) :
  Utils.length (Utils.sphericalToCartesian r theta phi) = Rabs r /\
  Utils.length (Utils.sphericalToCartesian r theta phi) =
    Utils.length (Utils.sphericalToCartesian r theta' phi').
Proof.
  rewrite !sphericalToCartesian_length_aux. split; reflexivity.
Qed.

(** X6: for a vector other than the origin, [cartesianToSpherical] gives
    the length as [r] (positive) and a polar angle [phi] in [0, PI], from
    which [sphericalToCartesian] recovers the z coordinate, whatever
    [Math.atan2] returns and whatever azimuth is passed back. *)
Theorem cartesianToSpherical_polar (atan2 : R -> R -> R) (v : Vec3) (azimuth : R) :
  v <> origin ->
  0 < Utils.r (Utils.cartesianToSpherical atan2 v) /\
  0 <= Utils.phi (Utils.cartesianToSpherical atan2 v) <= PI /\
  vz (Utils.sphericalToCartesian
        (Utils.r (Utils.cartesianToSpherical atan2 v))
        azimuth
        (Utils.phi (Utils.cartesianToSpherical atan2 v))) = vz v /\
  Utils.length (Utils.sphericalToCartesian
        (Utils.r (Utils.cartesianToSpherical atan2 v))
        azimuth
        (Utils.phi (Utils.cartesianToSpherical atan2 v))) = Utils.length v.
Proof.
  intros Hv. pose proof (length_pos v Hv) as Hr. pose proof (length_sq v) as Hsq.
  unfold Utils.cartesianToSpherical. cbn [Utils.r Utils.phi].
  assert (Hz : -1 <= vz v / Utils.length v <= 1).
  { assert (Hzz : vz v * vz v <= Utils.length v * Utils.length v) by nra.
    split.
    - apply (Rmult_le_reg_r (Utils.length v)); [exact Hr |].
      unfold Rdiv. rewrite Rmult_assoc, Rinv_l by lra. nra.
    - apply (Rmult_le_reg_r (Utils.length v)); [exact Hr |].
      unfold Rdiv. rewrite Rmult_assoc, Rinv_l by lra. nra. }
  rewrite (Rmin_right 1 (vz v / Utils.length v)) by lra.
  rewrite (Rmax_right (-1) (vz v / Utils.length v)) by lra.
  split; [exact Hr |]. split; [apply acos_bound |]. split.
  - unfold Utils.sphericalToCartesian. cbn [vz]. rewrite cos_acos by exact Hz.
    field. lra.
  - rewrite sphericalToCartesian_length_aux. apply Rabs_pos_eq. lra.
Qed.

Lemma cartesianToSpherical_polar_witness :
  mkVec3 3 0 4 <> origin /\
  vz (Utils.sphericalToCartesian
        (Utils.r (Utils.cartesianToSpherical (fun _ _ => 0) (mkVec3 3 0 4)))
        0
        (Utils.phi (Utils.cartesianToSpherical (fun _ _ => 0) (mkVec3 3 0 4)))) = 4.
Proof.
  assert (H : mkVec3 3 0 4 <> origin)
    by (unfold origin; intros E; injection E; intros; lra).
  split; [exact H |].
  exact (proj1 (proj2 (proj2
           (cartesianToSpherical_polar (fun _ _ => 0) (mkVec3 3 0 4) 0 H)))).
Defined.

(** ** More on the table *)

Lemma insert_config_eq (k : nat) (c c' : FaceConfig) (m m' : FaceConfigs) :
  c = c' -> m = m' -> <[k := c]> m = <[k := c']> m'.
Proof. intros -> ->. reflexivity. Qed.

Lemma config_eq (u u' l l' p p' : Vec3) :
  u = u' -> l = l' -> p = p' ->
  {| up := u; lookAt := l; position := p |} = {| up := u'; lookAt := l'; position := p' |}.
Proof. intros -> -> ->. reflexivity. Qed.

Lemma vec_eq (x x' y y' z z' : R) :
  x = x' -> y = y' -> z = z' -> mkVec3 x y z = mkVec3 x' y' z'.
Proof. intros -> -> ->. reflexivity. Qed.

Ltac same_table :=
  unfold getZUpFaceConfigs, getYUpFaceConfigs, getEdgeConfigs, getCornerConfigs,
    spread, objectLiteral;
  rewrite ?decide_True by reflexivity;
  rewrite ?decide_False by discriminate;
  cbn [foldl fst snd];
  rewrite ?map_fmap_union, ?fmap_insert, ?fmap_empty;
  repeat (f_equal; []);
  repeat first
    [ reflexivity
    | apply insert_config_eq;
      [ unfold scalePosition, cfg, vscale; cbn [up lookAt position vx vy vz];
        apply config_eq; [reflexivity | reflexivity | apply vec_eq; lra] | ]
    | apply (f_equal2 (∪)) ].

Lemma getZUpFaceConfigs_scales (d : R) :
  getZUpFaceConfigs d = scalePosition d <$> getZUpFaceConfigs 1.
Proof. same_table. Qed.

Lemma getYUpFaceConfigs_scales (d : R) :
  getYUpFaceConfigs d = scalePosition d <$> getYUpFaceConfigs 1.
Proof. same_table. Qed.

(** X7: the table for a distance [d] is the table for distance 1 with
    every position multiplied by [d]: [up] and [lookAt] do not depend on
    the distance, whatever the coordinate-system argument and also for a
    zero or negative [d]. *)
Theorem table_scales_with_distance (cs : option string) (d : R) :
  getFaceConfigs cs (Some d) = scalePosition d <$> getFaceConfigs cs (Some 1) /\
  (forall (id : nat) (c : FaceConfig),
     getFaceConfigs cs (Some d) !! id = Some c ->
     exists c1 : FaceConfig,
       getFaceConfigs cs (Some 1) !! id = Some c1 /\
       up c = up c1 /\ lookAt c = lookAt c1 /\ position c = vscale d (position c1)).
Proof.
  assert (H : getFaceConfigs cs (Some d) = scalePosition d <$> getFaceConfigs cs (Some 1)).
  { unfold getFaceConfigs. cbn [default from_option].
    destruct (decide (default "Z-up"%string cs = "Z-up"%string)).
    - apply getZUpFaceConfigs_scales.
    - apply getYUpFaceConfigs_scales. }
  split; [exact H |]. intros id c. rewrite H, lookup_fmap.
  destruct (getFaceConfigs cs (Some 1) !! id) as [c1 |]; [| discriminate].
  intros E. injection E as <-. exists c1. repeat split; reflexivity.
Qed.

Lemma table_scales_with_distance_witness :
  getFaceConfigs (Some "Y-up"%string) (Some 250) !! FACES.LEFT =
    Some (cfg 0 1 0  1 0 0  (-250) 0 0) /\
  exists c1 : FaceConfig,
    getFaceConfigs (Some "Y-up"%string) (Some 1) !! FACES.LEFT = Some c1 /\
    mkVec3 (-250) 0 0 = vscale 250 (position c1).
Proof.
  split; [reflexivity |].
  destruct (proj2 (table_scales_with_distance (Some "Y-up"%string) 250)
              FACES.LEFT (cfg 0 1 0  1 0 0  (-250) 0 0) eq_refl)
    as (c1 & H1 & _ & _ & Hp).
  exists c1. split; [exact H1 | exact Hp].
Defined.

(** The positions of the table for distance 1 tell the regions apart. *)
Ltac distinct_positions :=
  intros H; first [ reflexivity | exfalso; injection H; intros; lra ].

Lemma unit_Z_table_separates :
  map_Forall
    (fun id1 c1 =>
       map_Forall (fun id2 c2 => position c1 = position c2 -> id1 = id2)
         (getZUpFaceConfigs 1))
    (getZUpFaceConfigs 1).
Proof. by_entries; by_entries; distinct_positions. Qed.

Lemma unit_Y_table_separates :
  map_Forall
    (fun id1 c1 =>
       map_Forall (fun id2 c2 => position c1 = position c2 -> id1 = id2)
         (getYUpFaceConfigs 1))
    (getYUpFaceConfigs 1).
Proof. by_entries; by_entries; distinct_positions. Qed.

Lemma vscale_cancel (d : R) (p q : Vec3) : d <> 0 -> vscale d p = vscale d q -> p = q.
Proof.
  intros Hd H. destruct p as [px py pz], q as [qx qy qz]. unfold vscale in H.
  cbn in H. injection H as Hx Hy Hz.
  apply Rmult_eq_reg_l in Hx, Hy, Hz; try exact Hd. subst. reflexivity.
Qed.

(** X8: for a distance other than zero, two different regions never have
    the same position: the position tells which region was clicked. *)
Theorem positions_distinct (cs : option string) (d : R) (id1 id2 : nat)
    (c1 c2 : FaceConfig) :
  d <> 0 ->
  getFaceConfigs cs (Some d) !! id1 = Some c1 ->
  getFaceConfigs cs (Some d) !! id2 = Some c2 ->
  position c1 = position c2 ->
  id1 = id2.
Proof.
  intros Hd. unfold getFaceConfigs. cbn [default from_option].
  destruct (decide (default "Z-up"%string cs = "Z-up"%string)).
  - rewrite getZUpFaceConfigs_scales, !lookup_fmap.
    destruct (getZUpFaceConfigs 1 !! id1) as [u1 |] eqn:E1; [| discriminate].
    destruct (getZUpFaceConfigs 1 !! id2) as [u2 |] eqn:E2; [| discriminate].
    intros H1 H2 Hp. injection H1 as <-. injection H2 as <-.
    apply (unit_Z_table_separates id1 u1 E1 id2 u2 E2).
    apply (vscale_cancel d); assumption.
  - rewrite getYUpFaceConfigs_scales, !lookup_fmap.
    destruct (getYUpFaceConfigs 1 !! id1) as [u1 |] eqn:E1; [| discriminate].
    destruct (getYUpFaceConfigs 1 !! id2) as [u2 |] eqn:E2; [| discriminate].
    intros H1 H2 Hp. injection H1 as <-. injection H2 as <-.
    apply (unit_Y_table_separates id1 u1 E1 id2 u2 E2).
    apply (vscale_cancel d); assumption.
Qed.

Lemma positions_distinct_witness :
  100 <> 0 /\
  getFaceConfigs None (Some 100) !! 3%nat = Some (cfg 0 0 1  1 0 0  100 0 0) /\
  (3 = 3)%nat.
Proof.
  assert (Hd : 100 <> 0) by lra.
  split; [exact Hd |]. split; [reflexivity |].
  exact (positions_distinct None 100 3 3 (cfg 0 0 1  1 0 0  100 0 0)
           (cfg 0 0 1  1 0 0  100 0 0) Hd eq_refl eq_refl eq_refl).
Defined.

(** ** The up vectors *)

Ltac up_vector :=
  split;
  [ intros Hface;
    first [ exfalso; unfold isFace in Hface; unfold_FACES; lia
          | unfold dot; cbn [up lookAt position cfg vx vy vz];
            split; [lra | split; [lra | listed_up]] ]
  | intros Hface;
    first [ exfalso; apply Hface; unfold isFace; unfold_FACES; lia
          | reflexivity ] ]
with listed_up :=
  unfold cardinalDirections; rewrite !elem_of_cons;
  repeat first [ left; reflexivity | right ].

Lemma Z_table_up (d : R) :
  map_Forall
    (fun id c =>
       (isFace id ->
          dot (up c) (position c) = 0 /\ dot (up c) (lookAt c) = 0 /\
          up c ∈ cardinalDirections) /\
       (~ isFace id -> up c = vertical "Z-up"))
    (getZUpFaceConfigs d).
Proof. by_entries; up_vector. Qed.

Lemma Y_table_up (d : R) :
  map_Forall
    (fun id c =>
       (isFace id ->
          dot (up c) (position c) = 0 /\ dot (up c) (lookAt c) = 0 /\
          up c ∈ cardinalDirections) /\
       (~ isFace id -> up c = vertical "Y-up"))
    (getYUpFaceConfigs d).
Proof. by_entries; up_vector. Qed.

(** X9: in both tables and for any distance, the [up] of each of the six
    faces is one of the six unit axis directions and is perpendicular to
    the face's position and to its lookAt, and the [up] of every edge and
    corner is the vertical axis of the convention: (0,0,1) under Z-up,
    (0,1,0) under Y-up. *)
Theorem up_vectors (cs : string) (d : R) (id : nat) (c : FaceConfig) :
  cs ∈ conventions ->
  getFaceConfigs (Some cs) (Some d) !! id = Some c ->
  (isFace id ->
     dot (up c) (position c) = 0 /\ dot (up c) (lookAt c) = 0 /\
     up c ∈ cardinalDirections) /\
  (~ isFace id -> up c = vertical cs).
Proof.
  intros Hcs. destruct (elem_of_conventions _ Hcs) as [-> | ->].
  - rewrite getFaceConfigs_Y. apply Y_table_up.
  - rewrite getFaceConfigs_Z. apply Z_table_up.
Qed.

Lemma up_vectors_witness :
  ("Y-up"%string ∈ conventions) /\
  getFaceConfigs (Some "Y-up"%string) (Some 100) !! FACES.TOP =
    Some (cfg 0 0 (-1)  0 (-1) 0  0 100 0) /\
  isFace FACES.TOP /\
  dot (mkVec3 0 0 (-1)) (mkVec3 0 100 0) = 0.
Proof.
  assert (Hcs : "Y-up"%string ∈ conventions)
    by (unfold conventions; rewrite !elem_of_cons; left; reflexivity).
  assert (Hf : isFace FACES.TOP) by (unfold isFace, FACES.TOP; lia).
  split; [exact Hcs |]. split; [reflexivity |]. split; [exact Hf |].
  exact (proj1 (proj1 (up_vectors "Y-up" 100 FACES.TOP
                         (cfg 0 0 (-1)  0 (-1) 0  0 100 0) Hcs eq_refl) Hf)).
Defined.

(** ** Where the camera looks *)

Ltac towards_origin d :=
  unfold looksTowardsOrigin, gaze, vsub, vscale; cbn [lookAt position cfg vx vy vz];
  first
    [ exists 1; split; [lra | apply vec_eq; lra]
    | exists ((1 + d) / d);
      split; [apply Rdiv_lt_0_compat; lra | apply vec_eq; field; lra]
    | exists ((d - 1) / d);
      split; [apply Rdiv_lt_0_compat; lra | apply vec_eq; field; lra] ].

Ltac not_towards_origin :=
  unfold looksTowardsOrigin, gaze, vsub, vscale; cbn [lookAt position cfg vx vy vz];
  intros (k & Hk & E); injection E; intros; nra.

Lemma looks_Y (d : R) :
  0 < d -> map_Forall (fun id c => looksTowardsOrigin c) (getYUpFaceConfigs d).
Proof. intros Hd. by_entries; towards_origin d. Qed.

Lemma looks_Z (d : R) :
  1 < d ->
  map_Forall
    (fun id c =>
       (id ∉ topBottomEdges -> looksTowardsOrigin c) /\
       (id ∈ topBottomEdges -> ~ looksTowardsOrigin c))
    (getZUpFaceConfigs d).
Proof.
  intros Hd. by_entries;
    (split; intros Hin;
     first [ towards_origin d
           | not_towards_origin
           | not_listed Hin
           | exfalso; apply Hin; unfold topBottomEdges; rewrite !elem_of_cons;
             unfold_FACES; repeat first [ left; reflexivity | right ] ]).
Qed.

(** X10: under Y-up and a positive distance, every one of the 26
    configurations looks from its position towards the origin (lookAt
    minus position is a negative multiple of the position).  Under Z-up
    and a distance above 1 the same holds for the faces, the side edges
    and the corners, and for none of the eight top and bottom edges. *)
Theorem line_of_sight (d : R) (id : nat) (c : FaceConfig) :
  (0 < d ->
   getFaceConfigs (Some "Y-up"%string) (Some d) !! id = Some c ->
   looksTowardsOrigin c) /\
  (1 < d ->
   getFaceConfigs (Some "Z-up"%string) (Some d) !! id = Some c ->
   (looksTowardsOrigin c <-> id ∉ topBottomEdges)).
Proof.
  split.
  - intros Hd. rewrite getFaceConfigs_Y. apply looks_Y. exact Hd.
  - intros Hd. rewrite getFaceConfigs_Z. intros Hc.
    destruct (looks_Z d Hd id c Hc) as [Hyes Hno]. split.
    + intros Hl Hin. exact (Hno Hin Hl).
    + exact Hyes.
Qed.

Lemma line_of_sight_witness :
  0 < 100 /\
  getFaceConfigs (Some "Y-up"%string) (Some 100) !! FACES.TOP_FRONT_EDGE =
    Some (cfg 0 1 0  0 0 0  0 (100 * 0.707) (100 * 0.707)) /\
  looksTowardsOrigin (cfg 0 1 0  0 0 0  0 (100 * 0.707) (100 * 0.707)).
Proof.
  assert (Hd : 0 < 100) by lra.
  split; [exact Hd |]. split; [reflexivity |].
  exact (proj1 (line_of_sight 100 FACES.TOP_FRONT_EDGE
                  (cfg 0 1 0  0 0 0  0 (100 * 0.707) (100 * 0.707))) Hd eq_refl).
Defined.

(** ** More on the synchronizer *)

Ltac quaternion_ring :=
  unfold THREE.multiplyQuaternions, THREE.invert, THREE.conjugate, THREE.lengthSq,
    THREE.identity;
  cbn [THREE._x THREE._y THREE._z THREE._w].

Lemma multiplyQuaternions_assoc (a b c : THREE.Quaternion) :
  THREE.multiplyQuaternions a (THREE.multiplyQuaternions b c) =
  THREE.multiplyQuaternions (THREE.multiplyQuaternions a b) c.
Proof. destruct a, b, c. quaternion_ring. f_equal; ring. Qed.

Lemma invert_multiplyQuaternions (a b : THREE.Quaternion) :
  THREE.invert (THREE.multiplyQuaternions a b) =
  THREE.multiplyQuaternions (THREE.invert b) (THREE.invert a).
Proof. destruct a, b. quaternion_ring. f_equal; ring. Qed.

Lemma invert_invert (q : THREE.Quaternion) : THREE.invert (THREE.invert q) = q.
Proof. destruct q. quaternion_ring. f_equal; ring. Qed.

Lemma lengthSq_multiplyQuaternions (a b : THREE.Quaternion) :
  THREE.lengthSq (THREE.multiplyQuaternions a b) = THREE.lengthSq a * THREE.lengthSq b.
Proof. destruct a, b. quaternion_ring. ring. Qed.

Lemma lengthSq_invert (q : THREE.Quaternion) :
  THREE.lengthSq (THREE.invert q) = THREE.lengthSq q.
Proof. destruct q. quaternion_ring. ring. Qed.

Lemma correction_unit (cs : string) : THREE.lengthSq (correction cs) = 1.
Proof.
  unfold correction. destruct (decide (cs = "Z-up"%string)).
  - pose proof correction_Z_unit as H. unfold correction in H.
    rewrite decide_True in H by reflexivity. exact H.
  - quaternion_ring. lra.
Qed.

(** What [setQuaternion] stores, for any convention string. *)
Lemma setQuaternion_value (this : ViewCubeMesh.t) (q : THREE.Quaternion) :
  ViewCubeMesh.quaternion (ViewCubeMesh.setQuaternion this q) =
  THREE.multiplyQuaternions (THREE.invert q)
    (correction (ViewCubeMesh.coordinateSystem this)) /\
  ViewCubeMesh.coordinateSystem (ViewCubeMesh.setQuaternion this q) =
  ViewCubeMesh.coordinateSystem this.
Proof.
  unfold ViewCubeMesh.setQuaternion, correction.
  destruct (decide (ViewCubeMesh.coordinateSystem this = "Z-up"%string));
    cbn [ViewCubeMesh.setRotationFromQuaternion ViewCubeMesh.quaternion
         ViewCubeMesh.coordinateSystem];
    rewrite ?multiplyQuaternions_identity_r; split; reflexivity.
Qed.

(** X11: for a unit camera quaternion [q] and any mesh, the camera's
    orientation multiplied by the rotation that [setQuaternion] stores is
    the correction of the mesh's convention: composed after the camera,
    the cube shows the fixed correction (the identity unless the
    convention is Z-up), and the stored rotation is again a unit
    quaternion. *)
Theorem camera_times_cube_is_correction (this : ViewCubeMesh.t) (q : THREE.Quaternion) :
  THREE.lengthSq q = 1 ->
  THREE.multiplyQuaternions q
    (ViewCubeMesh.quaternion (ViewCubeMesh.setQuaternion this q)) =
    correction (ViewCubeMesh.coordinateSystem this) /\
  THREE.lengthSq (ViewCubeMesh.quaternion (ViewCubeMesh.setQuaternion this q)) = 1.
Proof.
  intros Hq. rewrite (proj1 (setQuaternion_value this q)). split.
  - rewrite multiplyQuaternions_assoc, (proj1 (invert_unit q Hq)).
    apply multiplyQuaternions_identity_l.
  - rewrite lengthSq_multiplyQuaternions, lengthSq_invert, Hq, correction_unit. lra.
Qed.

Lemma camera_times_cube_is_correction_witness :
  THREE.lengthSq (THREE.mkQuaternion 0 0.6 0 0.8) = 1 /\
  THREE.multiplyQuaternions (THREE.mkQuaternion 0 0.6 0 0.8)
    (ViewCubeMesh.quaternion
       (ViewCubeMesh.setQuaternion (ViewCubeMesh.new None)
          (THREE.mkQuaternion 0 0.6 0 0.8))) = correction "Z-up".
Proof.
  assert (Hq : THREE.lengthSq (THREE.mkQuaternion 0 0.6 0 0.8) = 1)
    by (unfold THREE.lengthSq; cbn; lra).
  split; [exact Hq |].
  exact (proj1 (camera_times_cube_is_correction (ViewCubeMesh.new None)
                  (THREE.mkQuaternion 0 0.6 0 0.8) Hq)).
Defined.

(** X12: [setQuaternion] keeps no history: the stored rotation depends on
    the last camera quaternion only (not on the rotation set at
    construction or by earlier calls), and the convention of the mesh
    never changes. *)
Theorem setQuaternion_last_call_wins (this : ViewCubeMesh.t) (q1 q2 : THREE.Quaternion) :
  ViewCubeMesh.setQuaternion (ViewCubeMesh.setQuaternion this q1) q2 =
    ViewCubeMesh.setQuaternion this q2 /\
  ViewCubeMesh.setQuaternion
    {| ViewCubeMesh.coordinateSystem := ViewCubeMesh.coordinateSystem this;
       ViewCubeMesh.quaternion := q1 |} q2 =
    ViewCubeMesh.setQuaternion this q2 /\
  ViewCubeMesh.coordinateSystem (ViewCubeMesh.setQuaternion this q2) =
    ViewCubeMesh.coordinateSystem this.
Proof.
  destruct this as [cs q0]. unfold ViewCubeMesh.setQuaternion.
  cbn [ViewCubeMesh.coordinateSystem].
  destruct (decide (cs = "Z-up"%string)) as [E | E];
    cbn [ViewCubeMesh.setRotationFromQuaternion ViewCubeMesh.coordinateSystem];
    [rewrite !decide_True by exact E | rewrite !decide_False by exact E];
    repeat split; reflexivity.
Qed.

(** X13: feeding the stored rotation back into [setQuaternion] gives the
    camera quaternion conjugated by the correction, [c* q c]; unless the
    convention is Z-up this is the camera quaternion itself, so that
    [setQuaternion] is then its own inverse.  Two camera quaternions that
    give the same stored rotation are equal. *)
Theorem setQuaternion_twice (this : ViewCubeMesh.t) (q q' : THREE.Quaternion) :
  ViewCubeMesh.quaternion
    (ViewCubeMesh.setQuaternion this
       (ViewCubeMesh.quaternion (ViewCubeMesh.setQuaternion this q))) =
    THREE.multiplyQuaternions
      (THREE.multiplyQuaternions
         (THREE.invert (correction (ViewCubeMesh.coordinateSystem this))) q)
      (correction (ViewCubeMesh.coordinateSystem this)) /\
  (ViewCubeMesh.coordinateSystem this <> "Z-up"%string ->
   ViewCubeMesh.quaternion
     (ViewCubeMesh.setQuaternion this
        (ViewCubeMesh.quaternion (ViewCubeMesh.setQuaternion this q))) = q) /\
  (ViewCubeMesh.quaternion (ViewCubeMesh.setQuaternion this q) =
   ViewCubeMesh.quaternion (ViewCubeMesh.setQuaternion this q') -> q = q').
Proof.
  rewrite !(proj1 (setQuaternion_value this _)).
  set (c := correction (ViewCubeMesh.coordinateSystem this)).
  assert (Hc : THREE.lengthSq c = 1) by apply correction_unit.
  rewrite invert_multiplyQuaternions, invert_invert.
  split; [reflexivity |]. split.
  - intros Hcs. unfold c, correction. rewrite decide_False by exact Hcs.
    rewrite invert_identity, multiplyQuaternions_identity_l.
    apply multiplyQuaternions_identity_r.
  - intros H.
    apply (f_equal (fun x => THREE.multiplyQuaternions x (THREE.invert c))) in H.
    rewrite <- !multiplyQuaternions_assoc in H.
    rewrite (proj1 (invert_unit c Hc)), !multiplyQuaternions_identity_r in H.
    apply (f_equal THREE.invert) in H. rewrite !invert_invert in H. exact H.
Qed.

Lemma setQuaternion_twice_witness :
  ViewCubeMesh.coordinateSystem (ViewCubeMesh.new (Some "Y-up"%string)) <> "Z-up"%string /\
  ViewCubeMesh.quaternion
    (ViewCubeMesh.setQuaternion (ViewCubeMesh.new (Some "Y-up"%string))
       (ViewCubeMesh.quaternion
          (ViewCubeMesh.setQuaternion (ViewCubeMesh.new (Some "Y-up"%string))
             (THREE.mkQuaternion 0.6 0 0 0.8)))) = THREE.mkQuaternion 0.6 0 0 0.8.
Proof.
  assert (H : ViewCubeMesh.coordinateSystem (ViewCubeMesh.new (Some "Y-up"%string))
              <> "Z-up"%string) by discriminate.
  split; [exact H |].
  exact (proj1 (proj2 (setQuaternion_twice (ViewCubeMesh.new (Some "Y-up"%string))
                         (THREE.mkQuaternion 0.6 0 0 0.8)
                         (THREE.mkQuaternion 0.6 0 0 0.8))) H).
Defined.

(** ** The constructor *)

Lemma or_string_nonempty (a : option string) (b : string) :
  b <> EmptyString -> or_string a b <> EmptyString.
Proof.
  intros Hb. unfold or_string. destruct a as [s |]; [| exact Hb].
  destruct (decide (s = EmptyString)); assumption.
Qed.

Lemma or_string_idem (a : option string) (b : string) :
  b <> EmptyString -> or_string (Some (or_string a b)) b = or_string a b.
Proof.
  intros Hb. unfold or_string at 1.
  rewrite decide_False by (apply or_string_nonempty; exact Hb). reflexivity.
Qed.

Lemma dom_getFaceConfigs (cs : option string) (d : option R) :
  dom (getFaceConfigs cs d) = regionIds.
Proof.
  unfold getFaceConfigs.
  destruct (decide (default "Z-up"%string cs = "Z-up"%string)).
  - apply dom_getZUpFaceConfigs.
  - apply dom_getYUpFaceConfigs.
Qed.

(** X14: the constructor throws exactly when no container is given.
    Otherwise, whatever the other options (an unrecognised or empty
    coordinate system, a zero or absent distance), it returns a ViewCube
    whose mesh and table use the same resolved coordinate system, whose
    table is the Z-up table exactly when that string is Z-up, and whose
    [getFaceConfig] is defined on the identifiers 1..26 and [undefined]
    on every other number. *)
Theorem constructor_outcome (options : ViewCube.Options) :
  (ViewCube.container options = None ->
   throws (ViewCube.constructor (Some options))) /\
  (forall element : nat,
     ViewCube.container options = Some element ->
     exists this : ViewCube.t,
       ViewCube.constructor (Some options) = Normal this /\
       ViewCubeMesh.coordinateSystem (ViewCube._cube this) =
         ViewCube._coordinateSystem (ViewCube._options this) /\
       ViewCube._faceConfigs this =
         (if decide (ViewCube._coordinateSystem (ViewCube._options this) = "Z-up"%string)
          then getZUpFaceConfigs (ViewCube._cameraDistance (ViewCube._options this))
          else getYUpFaceConfigs (ViewCube._cameraDistance (ViewCube._options this))) /\
       (forall faceId : nat,
          (1 <= faceId <= 26)%nat <-> is_Some (ViewCube.getFaceConfig this faceId))).
Proof.
  destruct options as [container cs d]. cbn [ViewCube.container]. split.
  - intros ->. exact I.
  - intros element ->. eexists. split; [reflexivity |].
    cbn [ViewCube._cube ViewCube._options ViewCube._faceConfigs ViewCube.resolve
         ViewCube._coordinateSystem ViewCube._cameraDistance ViewCube.coordinateSystem
         ViewCube.cameraDistance ViewCube.container ViewCube.getFaceConfig
         default from_option].
    split; [| split].
    + unfold ViewCubeMesh.new. cbn [ViewCubeMesh.coordinateSystem].
      apply or_string_idem. discriminate.
    + reflexivity.
    + intros faceId. unfold ViewCube.getFaceConfig. cbn [ViewCube._faceConfigs].
      rewrite <- elem_of_dom, dom_getFaceConfigs, elem_of_regionIds. reflexivity.
Qed.

Lemma constructor_outcome_witness :
  ViewCube.container
    {| ViewCube.container := None;
       ViewCube.coordinateSystem := Some "Y-up"%string;
       ViewCube.cameraDistance := Some 50 |} = None /\
  throws (ViewCube.constructor
            (Some {| ViewCube.container := None;
                     ViewCube.coordinateSystem := Some "Y-up"%string;
                     ViewCube.cameraDistance := Some 50 |})).
Proof.
  split; [reflexivity |].
  exact (proj1 (constructor_outcome
                  {| ViewCube.container := None;
                     ViewCube.coordinateSystem := Some "Y-up"%string;
                     ViewCube.cameraDistance := Some 50 |}) eq_refl).
Defined.

(** ** The scene graph *)

Lemma notFalse_cases (x : option bool) : Scene.notFalse x = true \/ Scene.notFalse x = false.
Proof. destruct x as [[] |]; [left | right | left]; reflexivity. Qed.

Lemma names_of_new (options : Scene.Options) :
  Scene.name <$> Scene.allFaces (Scene.new options) =
    (Some <$> [2; 3; 4; 5; 1; 6]%nat)
    ++ (if Scene.notFalse (Scene.o_showCorners options)
        then Some <$> [19; 19; 19; 20; 20; 20; 21; 21; 21; 22; 22; 22;
                       24; 24; 24; 23; 23; 23; 26; 26; 26; 25; 25; 25]%nat
        else [])
    ++ (if Scene.notFalse (Scene.o_showEdges options)
        then Some <$> [7; 7; 8; 8; 9; 9; 10; 10; 17; 17; 16; 16; 15; 15; 18; 18;
                       11; 11; 12; 12; 13; 13; 14; 14]%nat
        else []).
Proof.
  unfold Scene.allFaces, Scene.new. cbn [Scene.children].
  destruct (Scene.notFalse (Scene.o_showCorners options));
    destruct (Scene.notFalse (Scene.o_showEdges options));
    destruct (Scene.notFalse (Scene.o_showOutline options)); reflexivity.
Qed.

Lemma length_filter_names (id : nat) (fs : list Scene.Face) :
  length (List.filter (namedAfter id) fs) =
  length (List.filter
            (fun n => match n with Some n => Nat.eqb n id | None => false end)
            (Scene.name <$> fs)).
Proof.
  induction fs as [| f fs IH]; [reflexivity |]. cbn [List.filter fmap list_fmap].
  unfold namedAfter at 1. destruct (Scene.name f) as [n |]; [| exact IH].
  destruct (Nat.eqb n id); cbn [length]; rewrite IH; reflexivity.
Qed.

(** X15: whatever the options, every mesh that [_build] creates is named
    after one of the regions 1..26, so that the table of either
    convention has a configuration for it; and when corners and edges are
    shown (they are unless the option is [false]) every region has its
    meshes: one per face, two per edge, three per corner, 54 in all. *)
Theorem built_meshes_are_regions (options : Scene.Options) :
  (forall face : Scene.Face,
     face ∈ Scene.allFaces (Scene.new options) ->
     exists id : nat,
       Scene.name face = Some id /\ (1 <= id <= 26)%nat /\
       forall (cs : option string) (d : option R), is_Some (getFaceConfigs cs d !! id)) /\
  (Scene.o_showCorners options <> Some false ->
   Scene.o_showEdges options <> Some false ->
   length (Scene.allFaces (Scene.new options)) = 54%nat /\
   forall id : nat,
     length (List.filter (namedAfter id) (Scene.allFaces (Scene.new options))) =
     meshesPerRegion id).
Proof.
  pose proof (names_of_new options) as Hnames. split.
  - intros face Hin.
    assert (Hn : Scene.name face ∈ Scene.name <$> Scene.allFaces (Scene.new options))
      by (apply list_elem_of_fmap_2; exact Hin).
    rewrite Hnames in Hn.
    assert (Hid : exists id : nat, Scene.name face = Some id /\ (1 <= id <= 26)%nat).
    { destruct (Scene.notFalse (Scene.o_showCorners options));
        destruct (Scene.notFalse (Scene.o_showEdges options));
        cbn [fmap list_fmap app] in Hn;
        rewrite ?elem_of_cons, ?elem_of_nil in Hn;
        repeat destruct Hn as [Hn | Hn]; try contradiction;
        eexists; (split; [exact Hn | lia]). }
    destruct Hid as (id & Hname & Hid). exists id. split; [exact Hname |].
    split; [exact Hid |]. intros cs d.
    apply elem_of_dom. rewrite dom_getFaceConfigs. apply elem_of_regionIds. exact Hid.
  - intros Hc He.
    assert (Hc' : Scene.notFalse (Scene.o_showCorners options) = true)
      by (destruct (Scene.o_showCorners options) as [[] |]; [| contradiction |]; reflexivity).
    assert (He' : Scene.notFalse (Scene.o_showEdges options) = true)
      by (destruct (Scene.o_showEdges options) as [[] |]; [| contradiction |]; reflexivity).
    rewrite Hc', He' in Hnames. split.
    + rewrite <- (length_fmap Scene.name), Hnames. reflexivity.
    + intros id. rewrite length_filter_names, Hnames.
      do 27 (destruct id as [| id]; [reflexivity |]). reflexivity.
Qed.

Lemma built_meshes_are_regions_witness :
  Scene.o_showCorners
    Scene.noOptions <> Some false /\
  length (Scene.allFaces
            (Scene.new Scene.noOptions)) = 54%nat.
Proof.
  assert (H : @None bool <> Some false) by discriminate.
  split; [exact H |].
  exact (proj1 (proj2 (built_meshes_are_regions
                         Scene.noOptions) H H)).
Defined.

(** [recolour] keeps the names, so a second pass decides the colours. *)
Lemma recolour_recolour (f g : Scene.Face -> N) :
  (forall a b : Scene.Face, Scene.name a = Scene.name b -> g a = g b) ->
  forall o : Scene.Object3D,
    Scene.recolour g (Scene.recolour f o) = Scene.recolour g o.
Proof.
  intros Hg. fix IH 1. intros [face | c s | r cs].
  - cbn [Scene.recolour]. destruct (Scene.truthy (Scene.name face)) eqn:E.
    + cbn [Scene.recolour Scene.name Scene.map Scene.size Scene.position
           Scene.rotations]. rewrite E. do 2 f_equal. apply Hg. reflexivity.
    + cbn [Scene.recolour]. rewrite E. reflexivity.
  - reflexivity.
  - cbn [Scene.recolour]. f_equal.
    induction cs as [| o cs IHcs]; [reflexivity |].
    cbn [List.map]. rewrite IH, IHcs. reflexivity.
Qed.

Lemma faces_recolour (f : Scene.Face -> N) :
  forall o : Scene.Object3D,
    Scene.faces (Scene.recolour f o) =
    List.map
      (fun face =>
         if Scene.truthy (Scene.name face)
         then {| Scene.name := Scene.name face; Scene.color := f face;
                 Scene.map := Scene.map face; Scene.size := Scene.size face;
                 Scene.position := Scene.position face;
                 Scene.rotations := Scene.rotations face |}
         else face)
      (Scene.faces o).
Proof.
  fix IH 1. intros [face | c s | r cs].
  - cbn [Scene.recolour Scene.faces List.map].
    destruct (Scene.truthy (Scene.name face)); reflexivity.
  - reflexivity.
  - cbn [Scene.recolour Scene.faces].
    induction cs as [| o cs IHcs]; [reflexivity |].
    cbn [List.map List.flat_map]. rewrite List.map_app, IH, IHcs. reflexivity.
Qed.

Lemma map_recolour_recolour (f g : Scene.Face -> N) (cs : list Scene.Object3D) :
  (forall a b : Scene.Face, Scene.name a = Scene.name b -> g a = g b) ->
  List.map (Scene.recolour g) (List.map (Scene.recolour f) cs) =
  List.map (Scene.recolour g) cs.
Proof.
  intros Hg. rewrite List.map_map. apply List.map_ext. intros o.
  apply recolour_recolour. exact Hg.
Qed.

Lemma allFaces_setHover (this : Scene.t) (id : nat) :
  Scene.allFaces (Scene.setHover this id) =
  List.map (hoverFace this id) (Scene.allFaces this).
Proof.
  destruct this as [bg hover outline cs].
  unfold Scene.setHover, Scene.allFaces, hoverFace.
  cbn [Scene._bgColor Scene._hoverColor Scene._outlineColor Scene.children].
  induction cs as [| o cs IH]; [reflexivity |].
  cbn [List.map List.flat_map]. rewrite List.map_app, IH. f_equal.
  apply faces_recolour.
Qed.


(** [clearHover] leaves a freshly built mesh as it is, unless the
    background colour is [undefined] and corner or edge meshes exist. *)
Lemma clearHover_new (options : Scene.Options) :
  Scene.clearHover (Scene.new options) = Scene.new options <->
  (Scene.o_main options <> Scene.Undefined \/
   (Scene.o_showCorners options = Some false /\
    Scene.o_showEdges options = Some false)).
Proof.
  destruct options as [size edgeSize showOutline showEdges showCorners main hover
                         outline top bottom front back left right family fontSize].
  cbn [Scene.o_main Scene.o_showCorners Scene.o_showEdges].
  split.
  - intros H.
    destruct main as [| | bg];
      [left; discriminate | | left; discriminate].
    destruct showCorners as [[] |]; destruct showEdges as [[] |];
      try (right; split; reflexivity);
      exfalso;
      apply (f_equal (fun t => Scene.color <$> Scene.allFaces t)) in H;
      destruct showOutline as [[] |]; vm_compute in H; discriminate H.
  - intros [Hmain | [-> ->]].
    + unfold Scene.clearHover, Scene.new.
      cbn [Scene._bgColor Scene._hoverColor Scene._outlineColor Scene.children
           Scene.o_main Scene.o_hover Scene.o_outline Scene.o_showCorners
           Scene.o_showEdges Scene.o_showOutline].
      f_equal.
      destruct main as [| | bg]; [| contradiction |];
        destruct (Scene.notFalse showCorners); destruct (Scene.notFalse showEdges);
        destruct (Scene.notFalse showOutline); reflexivity.
    + unfold Scene.clearHover, Scene.new.
      cbn [Scene._bgColor Scene._hoverColor Scene._outlineColor Scene.children
           Scene.o_main Scene.o_hover Scene.o_outline Scene.o_showCorners
           Scene.o_showEdges Scene.o_showOutline Scene.notFalse].
      f_equal. destruct main; destruct (Scene.notFalse showOutline); reflexivity.
Qed.

Lemma faces_of_new_are_named (options : Scene.Options) (face : Scene.Face) :
  In face (Scene.allFaces (Scene.new options)) -> Scene.truthy (Scene.name face) = true.
Proof.
  revert face. apply (proj1 (List.Forall_forall _ _)).
  unfold Scene.allFaces, Scene.new. cbn [Scene.children].
  destruct (Scene.notFalse (Scene.o_showCorners options));
    destruct (Scene.notFalse (Scene.o_showEdges options));
    destruct (Scene.notFalse (Scene.o_showOutline options));
    cbn [List.flat_map Scene.faces app fmap list_fmap imap Scene.labelFaces
         zip_with Scene._createCubeFaces Scene._getFaceLabels Scene._createCorners
         Scene._createEdges Scene._createCornerFaces Scene._createHorzEdgeFaces
         Scene._createVertEdgeFaces Scene.cornerFaces Scene.topEdgeFaces
         Scene.bottomEdgeFaces Scene.sideEdgeFaces Scene._createCubeOutline
         List.app];
    repeat (apply List.Forall_cons; [reflexivity |]);
    apply List.Forall_nil.
Qed.

(** X17: on a freshly built mesh, after [setHover(id)] and when the hover
    and background colours come out different, a mesh has the hover
    colour exactly when it is named [id]; and [clearHover] afterwards
    gives back the mesh as it was built exactly when the [colors.main]
    option is not an explicit [undefined], or neither corners nor edges
    are shown.  (With [main: undefined] the corner and edge meshes are
    built white and cleared to black.) *)
Theorem hover_on_built_mesh (options : Scene.Options) (id : nat) :
  (Scene.setHex (Scene._hoverColor (Scene.new options)) <>
   Scene.setHex (Scene._bgColor (Scene.new options)) ->
   forall face : Scene.Face,
     face ∈ Scene.allFaces (Scene.setHover (Scene.new options) id) ->
     (Scene.color face = Scene.setHex (Scene._hoverColor (Scene.new options)) <->
      Scene.name face = Some id)) /\
  (Scene.clearHover (Scene.setHover (Scene.new options) id) = Scene.new options <->
   (Scene.o_main options <> Scene.Undefined \/
    (Scene.o_showCorners options = Some false /\
     Scene.o_showEdges options = Some false))).
Proof.
  split.
  - intros Hne face.
    rewrite allFaces_setHover, list_elem_of_In, List.in_map_iff. intros (f0 & <- & Hin).
    pose proof (faces_of_new_are_named options f0 Hin) as Htruthy.
    unfold hoverFace. rewrite Htruthy. cbn [Scene.color Scene.name].
    destruct (decide (Scene.name f0 = Some id)) as [E | E].
    + split; intros _; [exact E | reflexivity].
    + split; [intros H; exfalso; apply Hne; symmetry; exact H | intros H; contradiction].
  - rewrite <- clearHover_new.
    assert (H : Scene.clearHover (Scene.setHover (Scene.new options) id) =
                Scene.clearHover (Scene.new options)).
    { destruct (Scene.new options) as [bg hover outline cs].
      unfold Scene.setHover, Scene.clearHover.
      cbn [Scene._bgColor Scene._hoverColor Scene._outlineColor Scene.children].
      f_equal. apply map_recolour_recolour. reflexivity. }
    rewrite H. reflexivity.
Qed.

Lemma hover_on_built_mesh_witness :
  Scene.setHex (Scene._hoverColor (Scene.new Scene.noOptions)) <>
  Scene.setHex (Scene._bgColor (Scene.new Scene.noOptions)) /\
  Scene.o_main Scene.noOptions <> Scene.Undefined /\
  Scene.clearHover (Scene.setHover (Scene.new Scene.noOptions) 7) =
  Scene.new Scene.noOptions.
Proof.
  assert (H : Scene.setHex (Scene._hoverColor (Scene.new Scene.noOptions)) <>
              Scene.setHex (Scene._bgColor (Scene.new Scene.noOptions)))
    by discriminate.
  assert (Hmain : Scene.o_main Scene.noOptions <> Scene.Undefined) by discriminate.
  split; [exact H |]. split; [exact Hmain |].
  exact (proj2 (proj2 (hover_on_built_mesh Scene.noOptions 7)) (or_introl Hmain)).
Defined.

(** With [colors: { main: undefined }] and the corners shown,
    [clearHover] changes the built mesh. *)
Remark clearHover_undefined_main :
  Scene.clearHover
    (Scene.new (Scene.mkOptions None None None None None Scene.Undefined Scene.Absent
                  Scene.Absent Scene.Absent Scene.Absent Scene.Absent Scene.Absent
                  Scene.Absent Scene.Absent Scene.Absent Scene.Absent)) <>
  Scene.new (Scene.mkOptions None None None None None Scene.Undefined Scene.Absent
               Scene.Absent Scene.Absent Scene.Absent Scene.Absent Scene.Absent
               Scene.Absent Scene.Absent Scene.Absent Scene.Absent).
Proof.
  intros H. apply clearHover_new in H.
  destruct H as [H | [H _]]; [apply H; reflexivity | discriminate H].
Qed.

(** ** Listeners *)

Lemma key_inj (a b : Interaction.EventName) :
  Interaction.key a = Interaction.key b -> a = b.
Proof. destruct a, b; intros H; first [reflexivity | discriminate H]. Qed.

Lemma emit_forEach (throwsOn : Interaction.Callback -> Interaction.Args -> option string)
    (this : Interaction.t) (event : Interaction.EventName) (args : Interaction.Args) :
  Interaction._emit throwsOn this event args =
  Interaction.forEach throwsOn (listenersOf this event) args.
Proof.
  unfold Interaction._emit, listenersOf.
  destruct (Interaction._eventListeners this !! Interaction.key event); reflexivity.
Qed.

Lemma forEach_no_throw (throwsOn : Interaction.Callback -> Interaction.Args -> option string)
    (cbs : list Interaction.Callback) (args : Interaction.Args) :
  (forall cb, cb ∈ cbs -> throwsOn cb args = None) ->
  Interaction.forEach throwsOn cbs args = (callsTo cbs args, Normal tt).
Proof.
  induction cbs as [| cb cbs IH]; intros H; [reflexivity |].
  cbn [Interaction.forEach]. rewrite (H cb) by apply list_elem_of_here.
  rewrite IH by (intros c Hc; apply H; apply list_elem_of_further; exact Hc).
  reflexivity.
Qed.

Lemma forEach_throw (throwsOn : Interaction.Callback -> Interaction.Args -> option string)
    (before after : list Interaction.Callback) (cb : Interaction.Callback)
    (args : Interaction.Args) (message : string) :
  (forall c, c ∈ before -> throwsOn c args = None) ->
  throwsOn cb args = Some message ->
  Interaction.forEach throwsOn (before ++ cb :: after) args =
    (callsTo (before ++ [cb]) args, Throw message).
Proof.
  induction before as [| b before IH]; intros H Hcb.
  - cbn [app Interaction.forEach]. rewrite Hcb. reflexivity.
  - cbn [app Interaction.forEach]. rewrite (H b) by apply list_elem_of_here.
    rewrite IH; [reflexivity | | exact Hcb].
    intros c Hc. apply H. apply list_elem_of_further. exact Hc.
Qed.

Lemma listenersOf_on (this : Interaction.t) (event other : Interaction.EventName)
    (cb : Interaction.Callback) :
  listenersOf (Interaction.on this event cb) other =
  if decide (other = event) then listenersOf this event ++ [cb]
  else listenersOf this other.
Proof.
  unfold listenersOf, Interaction.on, Interaction.setListeners.
  cbn [Interaction._eventListeners].
  destruct (decide (other = event)) as [-> | Hne].
  - rewrite lookup_insert_eq. cbn [default from_option].
    destruct (Interaction._eventListeners this !! Interaction.key event) eqn:E.
    + rewrite E. reflexivity.
    + rewrite lookup_insert_eq. reflexivity.
  - assert (Hk : Interaction.key event <> Interaction.key other)
      by (intros H; apply Hne; symmetry; apply key_inj; exact H).
    rewrite lookup_insert_ne by exact Hk.
    destruct (Interaction._eventListeners this !! Interaction.key event);
      [reflexivity | rewrite lookup_insert_ne by exact Hk; reflexivity].
Qed.

Lemma listenersOf_off (this : Interaction.t) (event other : Interaction.EventName)
    (cb : Interaction.Callback) :
  listenersOf (Interaction.off this event cb) other =
  if decide (other = event)
  then List.filter (fun c => negb (Nat.eqb c cb)) (listenersOf this event)
  else listenersOf this other.
Proof.
  unfold listenersOf, Interaction.off.
  destruct (Interaction._eventListeners this !! Interaction.key event) as [cbs |] eqn:E.
  - unfold Interaction.setListeners. cbn [Interaction._eventListeners].
    destruct (decide (other = event)) as [-> | Hne].
    + rewrite lookup_insert_eq. reflexivity.
    + rewrite lookup_insert_ne; [reflexivity |].
      intros H; apply Hne; symmetry; apply key_inj; exact H.
  - destruct (decide (other = event)) as [-> | Hne]; [| reflexivity].
    rewrite E. reflexivity.
Qed.

(** X18: the registry of listeners.  [on] appends the callback to the
    listeners of its event, [off] removes every registration of the
    callback from the listeners of its event (and does nothing, not even
    creating the entry, for an event without listeners); neither touches
    the other event.  When no listener throws, [_emit] calls the
    listeners of the event once per registration, in the order of
    registration, and nothing else. *)
Theorem listeners_registry
    (throwsOn : Interaction.Callback -> Interaction.Args -> option string)
    (this : Interaction.t) (event other : Interaction.EventName)
    (cb : Interaction.Callback) (args : Interaction.Args) :
  listenersOf (Interaction.on this event cb) event = listenersOf this event ++ [cb] /\
  listenersOf (Interaction.off this event cb) event =
    List.filter (fun c => negb (Nat.eqb c cb)) (listenersOf this event) /\
  (cb ∉ listenersOf (Interaction.off this event cb) event) /\
  (other <> event ->
   listenersOf (Interaction.on this event cb) other = listenersOf this other /\
   listenersOf (Interaction.off this event cb) other = listenersOf this other) /\
  (Interaction._eventListeners this !! Interaction.key event = None ->
   Interaction.off this event cb = this) /\
  ((forall c, c ∈ listenersOf this event -> throwsOn c args = None) ->
   Interaction._emit throwsOn this event args =
     (callsTo (listenersOf this event) args, Normal tt)).
Proof.
  split; [| split; [| split; [| split; [| split]]]].
  - rewrite listenersOf_on, decide_True by reflexivity. reflexivity.
  - rewrite listenersOf_off, decide_True by reflexivity. reflexivity.
  - rewrite listenersOf_off, decide_True by reflexivity.
    rewrite list_elem_of_In, List.filter_In. intros [_ H].
    rewrite Nat.eqb_refl in H. discriminate H.
  - intros Hne. rewrite listenersOf_on, listenersOf_off, !decide_False by exact Hne.
    split; reflexivity.
  - intros H. unfold Interaction.off. rewrite H. reflexivity.
  - intros H. rewrite emit_forEach. apply forEach_no_throw. exact H.
Qed.

Lemma listeners_registry_witness :
  Interaction.faceClick <> Interaction.drag /\
  listenersOf
    (Interaction.on (Interaction.init ∅ (Scene.mk None None None [])) Interaction.drag 7%nat)
    Interaction.faceClick = [] /\
  Interaction._emit (fun _ _ => None)
    (Interaction.on (Interaction.on (Interaction.init ∅ (Scene.mk None None None []))
                       Interaction.drag 7%nat) Interaction.drag 8%nat)
    Interaction.drag (Interaction.DragArgs 1 2) =
    ([(7%nat, Interaction.DragArgs 1 2); (8%nat, Interaction.DragArgs 1 2)], Normal tt).
Proof.
  assert (Hne : Interaction.faceClick <> Interaction.drag) by discriminate.
  split; [exact Hne |]. split.
  - exact (proj1 (proj1 (proj2 (proj2 (proj2
             (listeners_registry (fun _ _ => None)
                (Interaction.init ∅ (Scene.mk None None None [])) Interaction.drag
                Interaction.faceClick 7%nat (Interaction.DragArgs 1 2))))) Hne)).
  - exact (proj2 (proj2 (proj2 (proj2 (proj2
             (listeners_registry (fun _ _ => None)
                (Interaction.on (Interaction.on (Interaction.init ∅ (Scene.mk None None None []))
                                   Interaction.drag 7%nat) Interaction.drag 8%nat)
                Interaction.drag Interaction.drag 0%nat (Interaction.DragArgs 1 2))))))
             (fun _ _ => eq_refl)).
Defined.

(** X19: a listener that throws stops the dispatch: the listeners
    registered before it have been called, it has been called, those
    registered after it are not called, and [_emit] throws what it
    threw. *)
Theorem emit_stops_at_throw
    (throwsOn : Interaction.Callback -> Interaction.Args -> option string)
    (this : Interaction.t) (event : Interaction.EventName) (args : Interaction.Args)
    (before after : list Interaction.Callback) (cb : Interaction.Callback)
    (message : string) :
  listenersOf this event = before ++ cb :: after ->
  (forall c, c ∈ before -> throwsOn c args = None) ->
  throwsOn cb args = Some message ->
  Interaction._emit throwsOn this event args =
    (callsTo (before ++ [cb]) args, Throw message).
Proof.
  intros Hl Hb Hcb. rewrite emit_forEach, Hl. apply forEach_throw; assumption.
Qed.

Lemma emit_stops_at_throw_witness :
  Interaction._emit
    (fun cb _ => if Nat.eqb cb 2 then Some "boom"%string else None)
    (Interaction.on
       (Interaction.on
          (Interaction.on (Interaction.init ∅ (Scene.mk None None None [])) Interaction.drag 1%nat)
          Interaction.drag 2%nat)
       Interaction.drag 3%nat)
    Interaction.drag (Interaction.DragArgs 5 0) =
  ([(1%nat, Interaction.DragArgs 5 0); (2%nat, Interaction.DragArgs 5 0)],
   Throw "boom"%string).
Proof.
  apply (emit_stops_at_throw
           (fun cb _ => if Nat.eqb cb 2 then Some "boom"%string else None)
           _ Interaction.drag (Interaction.DragArgs 5 0) [1%nat] [3%nat] 2%nat "boom").
  - reflexivity.
  - intros c Hc. apply list_elem_of_singleton in Hc. subst c. reflexivity.
  - reflexivity.
Defined.

(** ** Dragging *)

Lemma last_cons {A : Type} (rest : list A) :
  forall c from : A, List.last (c :: rest) from = List.last rest c.
Proof.
  induction rest as [| r rest IH]; intros c from; [reflexivity |].
  change (List.last (c :: r :: rest) from) with (List.last (r :: rest) from).
  rewrite !IH. reflexivity.
Qed.

Lemma displacements_sum (from : Interaction.Point) (clients : list Interaction.Point) :
  sumX (displacements from clients) =
    Interaction.x (List.last clients from) - Interaction.x from /\
  sumY (displacements from clients) =
    Interaction.y (List.last clients from) - Interaction.y from.
Proof.
  revert from. induction clients as [| c rest IH]; intros from.
  - cbn. split; lra.
  - destruct (IH c) as [Hx Hy].
    rewrite last_cons. cbn [displacements sumX sumY fold_right fst snd].
    unfold sumX in Hx. unfold sumY in Hy. rewrite Hx, Hy. split; lra.
Qed.

Lemma moves_while_dragging
    (throwsOn : Interaction.Callback -> Interaction.Args -> option string)
    (clients : list Interaction.Point) :
  (forall c args, throwsOn c args = None) ->
  forall this : Interaction.t,
    Interaction._isDragging this = true ->
    Interaction.moves throwsOn this clients =
      ({| Interaction._faceConfigs := Interaction._faceConfigs this;
          Interaction._cube := Interaction._cube this;
          Interaction._eventListeners := Interaction._eventListeners this;
          Interaction._isDragging := true;
          Interaction._previousMousePosition :=
            List.last clients (Interaction._previousMousePosition this);
          Interaction.cursor := Interaction.cursor this;
          Interaction.documentListeners := Interaction.documentListeners this |},
       List.flat_map
         (fun d => callsTo (listenersOf this Interaction.drag)
                     (Interaction.DragArgs d.1 d.2))
         (displacements (Interaction._previousMousePosition this) clients)).
Proof.
  intros Hno. induction clients as [| c rest IH]; intros this Hdrag.
  - destruct this. cbn in Hdrag. subst. reflexivity.
  - cbn [Interaction.moves]. unfold Interaction._onDocumentMouseMove.
    rewrite Hdrag. cbn [negb]. rewrite emit_forEach.
    rewrite forEach_no_throw by (intros; apply Hno).
    rewrite IH by reflexivity.
    cbn [Interaction._previousMousePosition Interaction._faceConfigs Interaction._cube
         Interaction._eventListeners Interaction.cursor Interaction.documentListeners
         displacements List.flat_map fst snd].
    rewrite last_cons. reflexivity.
Qed.

(** X20: a drag.  After a mouse down at [start], and as long as no
    listener throws, every document mouse move delivers to each drag
    listener, in order, the displacement since the previous event; the
    displacements delivered add up to the displacement from [start] to
    the last position, which is the position remembered.  Before a mouse
    down, and after the mouse up, a document mouse move delivers
    nothing. *)
Theorem drag_deltas_add_up
    (throwsOn : Interaction.Callback -> Interaction.Args -> option string)
    (this : Interaction.t) (start : Interaction.Point) (clients : list Interaction.Point) :
  (forall c args, throwsOn c args = None) ->
  (Interaction.moves throwsOn (Interaction._onMouseDown this start) clients).2 =
    List.flat_map
      (fun d => callsTo (listenersOf this Interaction.drag) (Interaction.DragArgs d.1 d.2))
      (displacements start clients) /\
  sumX (displacements start clients) =
    Interaction.x (List.last clients start) - Interaction.x start /\
  sumY (displacements start clients) =
    Interaction.y (List.last clients start) - Interaction.y start /\
  Interaction._previousMousePosition
    (Interaction.moves throwsOn (Interaction._onMouseDown this start) clients).1 =
    List.last clients start /\
  (Interaction.moves throwsOn
     (Interaction._onDocumentMouseUp
        (Interaction.moves throwsOn (Interaction._onMouseDown this start) clients).1)
     clients).2 = [] /\
  (Interaction._isDragging this = false ->
   (Interaction.moves throwsOn this clients).2 = []).
Proof.
  intros Hno.
  assert (Hidle : forall s : Interaction.t,
             Interaction._isDragging s = false ->
             (Interaction.moves throwsOn s clients).2 = []).
  { intros s Hs. clear this start. induction clients as [| c rest IH]; [reflexivity |].
    cbn [Interaction.moves]. unfold Interaction._onDocumentMouseMove.
    rewrite Hs. cbn [negb].
    destruct (Interaction.moves throwsOn s rest) as [final later] eqn:E.
    cbn [snd] in IH. rewrite IH. reflexivity. }
  rewrite (moves_while_dragging throwsOn clients Hno
             (Interaction._onMouseDown this start) eq_refl).
  cbn [fst snd Interaction._previousMousePosition Interaction._onMouseDown].
  destruct (displacements_sum start clients) as [Hx Hy].
  split; [reflexivity |]. split; [exact Hx |]. split; [exact Hy |].
  split; [reflexivity |]. split; [apply Hidle; reflexivity | apply Hidle].
Qed.

Lemma drag_deltas_add_up_witness :
  (forall (c : Interaction.Callback) (args : Interaction.Args),
     (fun _ _ => @None string) c args = None) /\
  (Interaction.moves (fun _ _ => None)
     (Interaction._onMouseDown
        (Interaction.on (Interaction.init ∅ (Scene.mk None None None [])) Interaction.drag 7%nat)
        (Interaction.mkPoint 10 10))
     [Interaction.mkPoint 13 10; Interaction.mkPoint 13 14]).2 =
  [(7%nat, Interaction.DragArgs (13 - 10) (10 - 10));
   (7%nat, Interaction.DragArgs (13 - 13) (14 - 10))].
Proof.
  assert (H : forall (c : Interaction.Callback) (args : Interaction.Args),
             (fun _ _ => @None string) c args = None) by (intros; reflexivity).
  split; [exact H |].
  exact (proj1 (drag_deltas_add_up (fun _ _ => None)
                  (Interaction.on (Interaction.init ∅ (Scene.mk None None None []))
                     Interaction.drag 7%nat)
                  (Interaction.mkPoint 10 10)
                  [Interaction.mkPoint 13 10; Interaction.mkPoint 13 14] H)).
Defined.

(** X21: a drag listener that throws leaves the remembered position
    where it was: the next document mouse move reports the displacement
    from the older position again. *)
Theorem drag_throw_keeps_position
    (throwsOn : Interaction.Callback -> Interaction.Args -> option string)
    (this : Interaction.t) (client : Interaction.Point)
    (before after : list Interaction.Callback) (cb : Interaction.Callback)
    (message : string) :
  Interaction._isDragging this = true ->
  listenersOf this Interaction.drag = before ++ cb :: after ->
  (forall c args, c ∈ before -> throwsOn c args = None) ->
  (forall args, throwsOn cb args = Some message) ->
  Interaction._onDocumentMouseMove throwsOn this client =
    (this,
     callsTo (before ++ [cb])
       (Interaction.DragArgs
          (Interaction.x client - Interaction.x (Interaction._previousMousePosition this))
          (Interaction.y client - Interaction.y (Interaction._previousMousePosition this))),
     Throw message).
Proof.
  intros Hdrag Hl Hb Hcb. unfold Interaction._onDocumentMouseMove.
  rewrite Hdrag. cbn [negb]. rewrite emit_forEach, Hl.
  rewrite (forEach_throw throwsOn before after cb _ message);
    [reflexivity | intros c Hc; apply Hb; exact Hc | apply Hcb].
Qed.

Lemma drag_throw_keeps_position_witness :
  Interaction._onDocumentMouseMove (fun _ _ => Some "boom"%string)
    (Interaction._onMouseDown
       (Interaction.on (Interaction.init ∅ (Scene.mk None None None [])) Interaction.drag 7%nat)
       (Interaction.mkPoint 10 10))
    (Interaction.mkPoint 13 10) =
  (Interaction._onMouseDown
     (Interaction.on (Interaction.init ∅ (Scene.mk None None None [])) Interaction.drag 7%nat)
     (Interaction.mkPoint 10 10),
   [(7%nat, Interaction.DragArgs (13 - 10) (10 - 10))],
   Throw "boom"%string).
Proof.
  apply (drag_throw_keeps_position (fun _ _ => Some "boom"%string)
           (Interaction._onMouseDown
              (Interaction.on (Interaction.init ∅ (Scene.mk None None None []))
                 Interaction.drag 7%nat)
              (Interaction.mkPoint 10 10))
           (Interaction.mkPoint 13 10) [] [] 7%nat "boom").
  - reflexivity.
  - reflexivity.
  - intros c args Hc. apply elem_of_nil in Hc. contradiction.
  - reflexivity.
Defined.

(** ** Clicks and hovering *)

Lemma firstNamed_skips (before rest : list (option nat)) (name : option nat) :
  List.Forall (fun o => Scene.truthy o = false) before ->
  Scene.truthy name = true ->
  Interaction.firstNamed (before ++ name :: rest) = name.
Proof.
  intros Hb Hn. induction Hb as [| o before Ho _ IH].
  - cbn [app Interaction.firstNamed]. rewrite Hn. reflexivity.
  - cbn [app Interaction.firstNamed]. rewrite Ho. exact IH.
Qed.

(** X22: a click.  While dragging it does nothing.  Otherwise the
    nearest intersected object with a truthy name decides, and the
    objects behind it are never looked at: if its name is a key of the
    table, every faceClick listener is called, in order, with the name
    and the table's configuration for it; if it is not, nothing is
    called. *)
Theorem click_dispatch
    (throwsOn : Interaction.Callback -> Interaction.Args -> option string)
    (this : Interaction.t) (before behind : list (option nat)) (name : option nat) :
  (Interaction._isDragging this = true ->
   Interaction._onClick throwsOn this (before ++ name :: behind) = ([], Normal tt)) /\
  (Interaction._isDragging this = false ->
   List.Forall (fun o => Scene.truthy o = false) before ->
   Scene.truthy name = true ->
   exists faceId : nat,
     name = Some faceId /\
     Interaction._onClick throwsOn this (before ++ name :: behind) =
       match Interaction._faceConfigs this !! faceId with
       | Some config =>
           Interaction.forEach throwsOn (listenersOf this Interaction.faceClick)
             (Interaction.FaceClickArgs faceId config)
       | None => ([], Normal tt)
       end) /\
  (Interaction._isDragging this = false ->
   List.Forall (fun o => Scene.truthy o = false) (before ++ name :: behind) ->
   Interaction._onClick throwsOn this (before ++ name :: behind) = ([], Normal tt)).
Proof.
  unfold Interaction._onClick. split; [| split].
  - intros ->. reflexivity.
  - intros -> Hb Hn. rewrite (firstNamed_skips before behind name Hb Hn).
    destruct name as [faceId |]; [| discriminate Hn].
    exists faceId. split; [reflexivity |].
    destruct (Interaction._faceConfigs this !! faceId); [| reflexivity].
    apply emit_forEach.
  - intros -> Hall.
    assert (Hnone : Interaction.firstNamed (before ++ name :: behind) = None).
    { induction Hall as [| o l Ho _ IH]; [reflexivity |].
      cbn [Interaction.firstNamed]. rewrite Ho. exact IH. }
    rewrite Hnone. reflexivity.
Qed.

Lemma click_dispatch_witness :
  Interaction._isDragging
    (Interaction.on (Interaction.init (getFaceConfigs None None) (Scene.mk None None None []))
       Interaction.faceClick 5%nat) = false /\
  exists faceId : nat,
    Some 2%nat = Some faceId /\
    Interaction._onClick (fun _ _ => None)
      (Interaction.on (Interaction.init (getFaceConfigs None None) (Scene.mk None None None []))
         Interaction.faceClick 5%nat)
      ([None] ++ Some 2%nat :: [Some 3%nat]) =
    match getFaceConfigs None None !! faceId with
    | Some config =>
        Interaction.forEach (fun _ _ => None) [5%nat]
          (Interaction.FaceClickArgs faceId config)
    | None => ([], Normal tt)
    end.
Proof.
  split; [reflexivity |].
  assert (Hb : List.Forall (fun o => Scene.truthy o = false) [@None nat])
    by (constructor; [reflexivity | constructor]).
  exact (proj1 (proj2 (click_dispatch (fun _ _ => None)
                         (Interaction.on
                            (Interaction.init (getFaceConfigs None None)
                               (Scene.mk None None None []))
                            Interaction.faceClick 5%nat)
                         [None] [Some 3%nat] (Some 2%nat)))
           eq_refl Hb eq_refl).
Defined.

(** X23: the cube and the table fit: in a ViewCube whose table comes from
    [getFaceConfigs] (any arguments) and that is not dragging, a click
    whose nearest hit is any mesh of a built cube (any options) reaches
    every faceClick listener, once and in order when none throws, with the
    region the mesh is named after and that region's configuration. *)
Theorem click_on_mesh_reaches_listeners
    (throwsOn : Interaction.Callback -> Interaction.Args -> option string)
    (this : Interaction.t) (cs : option string) (d : option R)
    (options : Scene.Options) (face : Scene.Face) (behind : list (option nat)) :
  Interaction._faceConfigs this = getFaceConfigs cs d ->
  Interaction._isDragging this = false ->
  face ∈ Scene.allFaces (Scene.new options) ->
  (forall c args, throwsOn c args = None) ->
  exists (faceId : nat) (config : FaceConfig),
    Scene.name face = Some faceId /\
    getFaceConfigs cs d !! faceId = Some config /\
    Interaction._onClick throwsOn this (Scene.name face :: behind) =
      (callsTo (listenersOf this Interaction.faceClick)
         (Interaction.FaceClickArgs faceId config), Normal tt).
Proof.
  intros Htable Hdrag Hin Hno.
  assert (Hn : Scene.name face ∈ Scene.name <$> Scene.allFaces (Scene.new options))
    by (apply list_elem_of_fmap_2; exact Hin).
  rewrite names_of_new in Hn.
  assert (Hid : exists id : nat, Scene.name face = Some id /\ (1 <= id <= 26)%nat).
  { destruct (Scene.notFalse (Scene.o_showCorners options));
      destruct (Scene.notFalse (Scene.o_showEdges options));
      cbn [fmap list_fmap app] in Hn;
      rewrite ?elem_of_cons, ?elem_of_nil in Hn;
      repeat destruct Hn as [Hn | Hn]; try contradiction;
      eexists; (split; [exact Hn | lia]). }
  destruct Hid as (id & Hname & Hid).
  assert (Hsome : is_Some (getFaceConfigs cs d !! id)).
  { apply elem_of_dom. rewrite dom_getFaceConfigs. apply elem_of_regionIds. exact Hid. }
  destruct Hsome as [config Hconfig].
  exists id, config. split; [exact Hname |]. split; [exact Hconfig |].
  unfold Interaction._onClick. rewrite Hdrag, Hname.
  cbn [Interaction.firstNamed].
  assert (Ht : Scene.truthy (Some id) = true) by (destruct id; [lia | reflexivity]).
  rewrite Ht, Htable, Hconfig, emit_forEach.
  apply forEach_no_throw. intros c _. apply Hno.
Qed.

Lemma hover_last_wins (cube : Scene.t) (a b : nat) :
  Scene.clearHover (Scene.setHover cube a) = Scene.clearHover cube /\
  Scene.clearHover (Scene.clearHover cube) = Scene.clearHover cube /\
  Scene.setHover (Scene.clearHover cube) b = Scene.setHover cube b.
Proof.
  destruct cube as [bg hover outline cs]. unfold Scene.setHover, Scene.clearHover.
  cbn [Scene._bgColor Scene._hoverColor Scene._outlineColor Scene.children].
  split; [| split]; f_equal; apply map_recolour_recolour;
    first [ reflexivity | intros x y ->; reflexivity ].
Qed.

(** X24: hovering follows the pointer.  A mouse move while dragging
    changes nothing.  Otherwise it highlights the region of the nearest
    named object (cursor pointer) or clears the highlight (cursor
    default), starting from a cleared cube, so that after two mouse moves
    the state is that of the second one alone; the listeners, the table and
    the drag state are never touched. *)
Theorem mouse_move_last_wins (this : Interaction.t) (first second : list (option nat)) :
  (Interaction._isDragging this = true ->
   Interaction._onMouseMove this second = this) /\
  Interaction._onMouseMove (Interaction._onMouseMove this first) second =
    Interaction._onMouseMove this second /\
  (Interaction._isDragging this = false ->
   Interaction._cube (Interaction._onMouseMove this second) =
     match Interaction.firstNamed second with
     | Some name => Scene.setHover (Interaction._cube this) name
     | None => Scene.clearHover (Interaction._cube this)
     end) /\
  Interaction._eventListeners (Interaction._onMouseMove this second) =
    Interaction._eventListeners this /\
  Interaction._faceConfigs (Interaction._onMouseMove this second) =
    Interaction._faceConfigs this /\
  Interaction._isDragging (Interaction._onMouseMove this second) =
    Interaction._isDragging this /\
  Interaction._previousMousePosition (Interaction._onMouseMove this second) =
    Interaction._previousMousePosition this.
Proof.
  destruct this as [table cube listeners dragging previous cursor doc].
  unfold Interaction._onMouseMove, Interaction.setCursor, Interaction.setCube.
  cbn [Interaction._isDragging Interaction._cube Interaction._faceConfigs
       Interaction._eventListeners Interaction._previousMousePosition
       Interaction.cursor Interaction.documentListeners].
  destruct dragging.
  - repeat split; try reflexivity. intros H; discriminate H.
  - split; [intros H; discriminate H |].
    destruct (Interaction.firstNamed first) as [m |];
      destruct (Interaction.firstNamed second) as [n |];
      cbn [Interaction._isDragging Interaction._cube Interaction._faceConfigs
           Interaction._eventListeners Interaction._previousMousePosition
           Interaction.cursor Interaction.documentListeners];
      rewrite ?(proj1 (hover_last_wins (Scene.clearHover cube) m 0)),
              ?(proj1 (proj2 (hover_last_wins cube 0 0))),
              ?(proj2 (proj2 (hover_last_wins cube 0 n)));
      repeat split; reflexivity.
Qed.

Lemma mouse_move_last_wins_witness :
  Interaction._isDragging
    (Interaction._onMouseDown (Interaction.init ∅ (Scene.mk None None None []))
       (Interaction.mkPoint 0 0)) = true /\
  Interaction._onMouseMove
    (Interaction._onMouseDown (Interaction.init ∅ (Scene.mk None None None []))
       (Interaction.mkPoint 0 0)) [Some 3%nat] =
  Interaction._onMouseDown (Interaction.init ∅ (Scene.mk None None None []))
    (Interaction.mkPoint 0 0).
Proof.
  split; [reflexivity |].
  exact (proj1 (mouse_move_last_wins
                  (Interaction._onMouseDown (Interaction.init ∅ (Scene.mk None None None []))
                     (Interaction.mkPoint 0 0)) [] [Some 3%nat]) eq_refl).
Defined.

(** ** Normalized device coordinates *)

(** X25: for a canvas rectangle of positive width and height,
    [_getNormalizedCoords] maps the rectangle onto the square
    [-1, 1] x [-1, 1]: the top left corner to (-1, 1), the bottom right
    corner to (1, -1), the centre to (0, 0), a point of the rectangle to
    a point of the square, and two different points to different
    coordinates. *)
Theorem normalized_coords (rect : Interaction.Rect) (p q : Interaction.Point) :
  0 < Interaction.width rect ->
  0 < Interaction.height rect ->
  Interaction._getNormalizedCoords rect
    (Interaction.mkPoint (Interaction.left rect) (Interaction.top rect)) =
    Interaction.mkPoint (-1) 1 /\
  Interaction._getNormalizedCoords rect
    (Interaction.mkPoint (Interaction.left rect + Interaction.width rect)
       (Interaction.top rect + Interaction.height rect)) =
    Interaction.mkPoint 1 (-1) /\
  Interaction._getNormalizedCoords rect
    (Interaction.mkPoint (Interaction.left rect + Interaction.width rect / 2)
       (Interaction.top rect + Interaction.height rect / 2)) =
    Interaction.mkPoint 0 0 /\
  (Interaction.left rect <= Interaction.x p <= Interaction.left rect + Interaction.width rect ->
   Interaction.top rect <= Interaction.y p <= Interaction.top rect + Interaction.height rect ->
   -1 <= Interaction.x (Interaction._getNormalizedCoords rect p) <= 1 /\
   -1 <= Interaction.y (Interaction._getNormalizedCoords rect p) <= 1) /\
  (Interaction._getNormalizedCoords rect p = Interaction._getNormalizedCoords rect q ->
   p = q).
Proof.
  destruct rect as [l t w h]. destruct p as [px py]. destruct q as [qx qy].
  cbn [Interaction.width Interaction.height Interaction.left Interaction.top
       Interaction.x Interaction.y].
  intros Hw Hh. unfold Interaction._getNormalizedCoords.
  cbn [Interaction.width Interaction.height Interaction.left Interaction.top
       Interaction.x Interaction.y].
  split; [| split; [| split; [| split]]].
  - f_equal; field; lra.
  - f_equal; field; lra.
  - f_equal; field; lra.
  - intros Hx Hy.
    assert (Hxr : 0 <= (px - l) / w <= 1).
    { split; [apply Rmult_le_pos; [lra | left; apply Rinv_0_lt_compat; exact Hw] |].
      apply (Rmult_le_reg_r w); [exact Hw |].
      unfold Rdiv. rewrite Rmult_assoc, Rinv_l by lra. lra. }
    assert (Hyr : 0 <= (py - t) / h <= 1).
    { split; [apply Rmult_le_pos; [lra | left; apply Rinv_0_lt_compat; exact Hh] |].
      apply (Rmult_le_reg_r h); [exact Hh |].
      unfold Rdiv. rewrite Rmult_assoc, Rinv_l by lra. lra. }
    lra.
  - intros H. injection H as Hx Hy.
    assert (Hx' : (px - l) / w = (qx - l) / w) by lra.
    assert (Hy' : (py - t) / h = (qy - t) / h) by lra.
    unfold Rdiv in Hx', Hy'.
    apply Rmult_eq_reg_r in Hx'; [| apply Rinv_neq_0_compat; lra].
    apply Rmult_eq_reg_r in Hy'; [| apply Rinv_neq_0_compat; lra].
    f_equal; lra.
Qed.

Lemma normalized_coords_witness :
  0 < 120 /\ 0 < 120 /\
  Interaction._getNormalizedCoords (Interaction.mkRect 500 10 120 120)
    (Interaction.mkPoint (500 + 120 / 2) (10 + 120 / 2)) = Interaction.mkPoint 0 0.
Proof.
  assert (H : 0 < 120) by lra.
  split; [exact H |]. split; [exact H |].
  exact (proj1 (proj2 (proj2
           (normalized_coords (Interaction.mkRect 500 10 120 120)
              (Interaction.mkPoint 0 0) (Interaction.mkPoint 0 0) H H)))).
Defined.

Lemma click_on_mesh_reaches_listeners_witness :
  exists (face : Scene.Face) (faceId : nat) (config : FaceConfig),
    face ∈ Scene.allFaces
             (Scene.new Scene.noOptions) /\
    Scene.name face = Some faceId /\
    getFaceConfigs None None !! faceId = Some config /\
    Interaction._onClick (fun _ _ => None)
      (Interaction.on (Interaction.init (getFaceConfigs None None) (Scene.mk None None None []))
         Interaction.faceClick 5%nat)
      (Scene.name face :: []) =
    (callsTo [5%nat] (Interaction.FaceClickArgs faceId config), Normal tt).
Proof.
  set (options := Scene.noOptions).
  set (face := Scene.mkFace (Some FACES.FRONT) 0xDDDDDD%N
                 (Some (Scene.mkTexture (Some "FRONT"%string) 45 "Arial Narrow, sans-serif" 0))
                 (30 - 5 * 2, 30 - 5 * 2) (mkVec3 0 0 (30 / 2))
                 [(Scene.Y_AXIS, 0 * Utils.DEG_TO_RAD)]).
  assert (Hin : face ∈ Scene.allFaces (Scene.new options)).
  { apply list_elem_of_In. left. reflexivity. }
  destruct (click_on_mesh_reaches_listeners (fun _ _ => None)
              (Interaction.on
                 (Interaction.init (getFaceConfigs None None) (Scene.mk None None None []))
                 Interaction.faceClick 5%nat)
              None None options face [] eq_refl eq_refl Hin (fun _ _ => eq_refl))
    as (faceId & config & Hname & Hconfig & Hclick).
  exists face, faceId, config.
  split; [exact Hin |]. split; [exact Hname |]. split; [exact Hconfig |]. exact Hclick.
Defined.

Lemma calculateAngleDelta_shortest_witness :
  Rabs (0 - 0) <= 3 * PI /\ Rabs (Utils.calculateAngleDelta 0 0) <= PI.
Proof.
  assert (H : Rabs (0 - 0) <= 3 * PI).
  { pose proof PI_RGT_0. rewrite Rabs_pos_eq by lra. lra. }
  split; [exact H |].
  exact (proj2 (proj2 (proj2 (calculateAngleDelta_shortest 0 0))) H).
Defined.

